(** * Booking gateway: a shallow embedding of [server.js] and of its early variant

    The gateway is an Express application in front of a hosted store and
    identity provider (Supabase).  The handlers are embedded as programs of
    a small state-and-exception monad over a [World] that holds the
    [bookings] table, the identity provider and the wall clock.  Request
    bodies are JSON values; the JavaScript operators the handlers use on
    them (truthiness, property access, [ToString], [RegExp.prototype.test],
    [String.prototype.split]) are embedded next to them. *)

From Stdlib Require Import Ascii String ZArith Lia OrdersEx.
From stdpp Require Import base option list gmap strings pretty sorting.

Local Open Scope Z_scope.

#[local] Set Warnings "-register-all,-clear-no-such-hyp".

(** ** JavaScript values as produced by [express.json()] *)

(** [JNum] carries the integer-valued numbers, printed in decimal notation
    as JavaScript prints them below 10^21; a fractional number behaves like
    a non-zero integer everywhere below (truthy, never matched by the two
    patterns). *)
Inductive JsValue : Type :=
  | JUndefined
  | JNull
  | JBool (b : bool)
  | JNum (n : Z)
  | JStr (s : string)
  | JArr (elems : list JsValue)
  | JObj (props : list (string * JsValue)).

(** A thrown JavaScript value: [err.message]. *)
Record Error : Type := { message : string }.

Definition TypeError (msg : string) : Error := {| message := msg |}.

(** The completion of an evaluation: a value or a thrown error. *)
Inductive Outcome (A : Type) : Type :=
  | Returned (a : A)
  | Raised (e : Error).
Arguments Returned {A} a.
Arguments Raised {A} e.

Definition obind {A B} (o : Outcome A) (k : A → Outcome B) : Outcome B :=
  match o with
  | Returned a => k a
  | Raised e => Raised e
  end.

(** [ToBoolean]. *)
Definition truthy (v : JsValue) : bool :=
  match v with
  | JUndefined | JNull => false
  | JBool b => b
  | JNum n => negb (n =? 0)
  | JStr s => negb (String.eqb s "")
  | JArr _ | JObj _ => true
  end.

Definition falsy (v : JsValue) : bool := negb (truthy v).

(** The own properties of a parsed object; parsing leaves one binding of
    a key. *)
Fixpoint own_prop (props : list (string * JsValue)) (k : string) : option JsValue :=
  match props with
  | [] => None
  | (k', v) :: rest => if String.eqb k' k then Some v else own_prop rest k
  end.

(** [event.k] for the keys the handlers read ([id], [title], [date],
    [startTime], [endTime]): none of them is a member of a prototype, so
    every value but [null] and [undefined] answers with its own property
    or [undefined]. *)
Definition get_prop (v : JsValue) (k : string) : Outcome JsValue :=
  match v with
  | JUndefined => Raised (TypeError ("Cannot read properties of undefined (reading '" +:+ k +:+ "')"))
  | JNull => Raised (TypeError ("Cannot read properties of null (reading '" +:+ k +:+ "')"))
  | JObj props => Returned (default JUndefined (own_prop props k))
  | _ => Returned JUndefined
  end.

(** [ToString].  An array joins its elements with a comma, [null] and
    [undefined] elements as the empty string; a plain object prints as
    [[object Object]] unless it carries an own [toString] property, which a
    parsed body can only bind to a value that is not callable. *)
Fixpoint to_string (v : JsValue) : Outcome string :=
  match v with
  | JUndefined => Returned "undefined"
  | JNull => Returned "null"
  | JBool true => Returned "true"
  | JBool false => Returned "false"
  | JNum n => Returned (pretty n)
  | JStr s => Returned s
  | JArr elems =>
      (fix join (l : list JsValue) : Outcome string :=
         match l with
         | [] => Returned ""
         | x :: rest =>
             obind (match x with
                    | JUndefined | JNull => Returned ""
                    | _ => to_string x
                    end)
               (λ sx, match rest with
                      | [] => Returned sx
                      | _ => obind (join rest) (λ sr, Returned (sx +:+ "," +:+ sr))
                      end)
         end) elems
  | JObj props =>
      match own_prop props "toString" with
      | Some _ => Raised (TypeError "Cannot convert object to primitive value")
      | None => Returned "[object Object]"
      end
  end.

(** ** The two patterns of the validation *)

Inductive Atom : Type :=
  | Digit            (* \d *)
  | Lit (c : ascii). (* a literal character *)

Definition is_digit (c : ascii) : bool :=
  (48 <=? N_of_ascii c)%N && (N_of_ascii c <=? 57)%N.

Definition atom_matches (a : Atom) (c : ascii) : bool :=
  match a with
  | Digit => is_digit c
  | Lit c' => Ascii.eqb c' c
  end.

(** An anchored pattern [/^a1 a2 ... an$/] matches exactly the strings of
    [n] characters whose i-th character matches [ai]. *)
Fixpoint matches (pat : list Atom) (s : string) : bool :=
  match pat, s with
  | [], EmptyString => true
  | a :: pat', String c s' => atom_matches a c && matches pat' s'
  | _, _ => false
  end.

(** [/^\d{4}-\d{2}-\d{2}$/] *)
Definition date_pattern : list Atom :=
  replicate 4 Digit ++ [Lit "-"] ++ replicate 2 Digit ++ [Lit "-"] ++ replicate 2 Digit.

(** [/^\d{2}:\d{2}$/] *)
Definition time_pattern : list Atom :=
  replicate 2 Digit ++ [Lit ":"] ++ replicate 2 Digit.

(** [pattern.test(v)]: the argument is converted with [ToString] first. *)
Definition test (pat : list Atom) (v : JsValue) : Outcome bool :=
  obind (to_string v) (λ s, Returned (matches pat s)).

(** [s.split(sep)] for a one-character separator: never empty. *)
Fixpoint split (sep : ascii) (s : string) : list string :=
  match s with
  | EmptyString => [EmptyString]
  | String c s' =>
      if Ascii.eqb c sep then EmptyString :: split sep s'
      else match split sep s' with
           | [] => [String c EmptyString]
           | piece :: pieces => String c piece :: pieces
           end
  end.
Arguments split : simpl never.

(** ** The world outside the gateway *)

(** A row of the [bookings] table, with the columns the gateway writes. *)
Module Row.
Record t : Type := mk {
  id : JsValue;
  title : JsValue;
  date : JsValue;
  start_time : JsValue;
  end_time : JsValue;
  user_id : string
}.
End Row.

(** A user of the identity provider: an opaque identifier issued by the
    provider, and the email address when the account has one ([None] for
    [undefined]). *)
Module User.
Record t : Type := mk { id : string; email : option string }.
End User.

(** What a Supabase call resolves to: [{ data, error }]. *)
Record Reply (A : Type) : Type := { data : option A; error : option Error }.
Arguments data {A} r.
Arguments error {A} r.

Definition succeeded {A} (a : option A) : Reply A := {| data := a; error := None |}.
Definition failed {A} (e : Error) : Reply A := {| data := None; error := Some e |}.

(** The state the handlers run against.  [bookings] is the table, keyed by
    the text of the primary key [id].  [faults] schedules the incidents of
    the store: its head is the error the next store call answers with, if
    any.  [now] is the wall clock, indexed by the number of readings taken
    so far.  [getUser] and [getUserById] are the identity provider. *)
Record World : Type := {
  bookings : gmap string Row.t;
  faults : list (option Error);
  now : nat → Z;
  reads : nat;
  getUser : option string → Outcome (Reply User.t);
  getUserById : string → Outcome (Reply User.t)
}.

Definition with_bookings (tbl : gmap string Row.t) (w : World) : World :=
  {| bookings := tbl; faults := faults w; now := now w; reads := reads w;
     getUser := getUser w; getUserById := getUserById w |}.

Definition with_faults (fs : list (option Error)) (w : World) : World :=
  {| bookings := bookings w; faults := fs; now := now w; reads := reads w;
     getUser := getUser w; getUserById := getUserById w |}.

Definition with_reads (n : nat) (w : World) : World :=
  {| bookings := bookings w; faults := faults w; now := now w; reads := n;
     getUser := getUser w; getUserById := getUserById w |}.

(** The store answers every call without an error. *)
Definition healthy (w : World) : Prop := Forall (λ f, f = None) (faults w).

(** ** The monad of the handlers: state and exceptions *)

Definition M (A : Type) : Type := World → Outcome A * World.

Definition ret {A} (a : A) : M A := λ w, (Returned a, w).

Definition throw {A} (e : Error) : M A := λ w, (Raised e, w).

Definition bind {A B} (m : M A) (k : A → M B) : M B :=
  λ w, match m w with
       | (Returned a, w') => k a w'
       | (Raised e, w') => (Raised e, w')
       end.

(** [try { m } catch (err) { h err }] *)
Definition try_catch {A} (m : M A) (h : Error → M A) : M A :=
  λ w, match m w with
       | (Returned a, w') => (Returned a, w')
       | (Raised e, w') => h e w'
       end.

Definition lift {A} (o : Outcome A) : M A := λ w, (o, w).

Notation "'let!' x ':=' m 'in' k" := (bind m (λ x, k))
  (at level 10, x name, m at level 100, k at level 200).

(** [l.map(f)] for a callback with effects, left to right. *)
Fixpoint traverse {A B} (f : A → M B) (l : list A) : M (list B) :=
  match l with
  | [] => ret []
  | x :: rest =>
      let! y := f x in
      let! ys := traverse f rest in
      ret (y :: ys)
  end.

(** [Date.now()] *)
Definition Date_now : M Z :=
  λ w, (Returned (now w (reads w)), with_reads (S (reads w)) w).

(** ** The store and the identity provider (Supabase) *)

Module Supabase.

(** The text under which the primary key holds an identifier: numbers
    and text are keys, anything else is refused by the column. *)
Definition key_of (v : JsValue) : option string :=
  match v with
  | JNum n => Some (pretty n)
  | JStr s => Some s
  | _ => None
  end.

(** The order of the [date] column: by the characters of its text, which
    on [YYYY-MM-DD] is the order of the calendar. *)
Definition date_key (v : JsValue) : string :=
  match to_string v with
  | Returned s => s
  | Raised _ => ""
  end.

(** The lexical order of text. *)
Definition text_le (a b : string) : bool :=
  match String_as_OT.compare a b with
  | Gt => false
  | _ => true
  end.

Definition date_le (d1 d2 : JsValue) : Prop :=
  text_le (date_key d1) (date_key d2) = true.

Definition row_le (r1 r2 : Row.t) : Prop := date_le (Row.date r1) (Row.date r2).

#[global] Instance row_le_dec : RelDecision row_le.
Proof. intros r1 r2. unfold row_le, date_le. apply _. Defined.

Definition next_fault : M (option Error) :=
  λ w, match faults w with
       | [] => (Returned None, w)
       | f :: fs => (Returned f, with_faults fs w)
       end.

(** [supabase.from('bookings').select(...).order('date', { ascending: true })] *)
Definition select_order_date : M (Reply (list Row.t)) :=
  let! f := next_fault in
  match f with
  | Some e => ret (failed e)
  | None => λ w, (Returned (succeeded (Some (merge_sort row_le (map_to_list (bookings w)).*2))), w)
  end.

(** [supabase.from('bookings').select('user_id').eq('id', id).single()]:
    [single] answers with an error, and [data] null, unless exactly one row
    matches; the key being unique, that is when no row matches. *)
Definition select_user_id_single (id : string) : M (Reply string) :=
  let! f := next_fault in
  match f with
  | Some e => ret (failed e)
  | None =>
      λ w, match bookings w !! id with
           | Some r => (Returned (succeeded (Some (Row.user_id r))), w)
           | None =>
               (Returned (failed {| message := "JSON object requested, multiple (or no) rows returned" |}), w)
           end
  end.

Definition upsert_rows (tbl : gmap string Row.t) (rows : list (string * Row.t)) : gmap string Row.t :=
  foldl (λ m kr, <[kr.1 := kr.2]> m) tbl rows.

(** The rows of a statement with their keys, if every [id] is a key. *)
Definition keyed_rows (rows : list Row.t) : option (list (string * Row.t)) :=
  mapM (λ r, k ← key_of (Row.id r); Some (k, r)) rows.

(** [supabase.from('bookings').upsert(rows)]: insert or replace by
    primary key, as one statement; a statement that proposes the same
    key twice is refused whole. *)
Definition upsert (rows : list Row.t) : M (Reply unit) :=
  let! f := next_fault in
  match f with
  | Some e => ret (failed e)
  | None =>
      match keyed_rows rows with
      | None => ret (failed {| message := "invalid input syntax for the primary key" |})
      | Some keyed =>
          if decide (NoDup keyed.*1)
          then λ w, (Returned (succeeded None), with_bookings (upsert_rows (bookings w) keyed) w)
          else ret (failed {| message := "ON CONFLICT DO UPDATE command cannot affect row a second time" |})
      end
  end.

(** [supabase.from('bookings').delete().eq('id', id)] *)
Definition delete_eq (id : string) : M (Reply unit) :=
  let! f := next_fault in
  match f with
  | Some e => ret (failed e)
  | None => λ w, (Returned (succeeded None), with_bookings (delete id (bookings w)) w)
  end.

(** [supabase.auth.getUser(token)] *)
Definition auth_getUser (token : option string) : M (Reply User.t) :=
  λ w, (getUser w token, w).

(** [supabase.auth.admin.getUserById(userId)] *)
Definition auth_admin_getUserById (userId : string) : M (Reply User.t) :=
  λ w, (getUserById w userId, w).

End Supabase.

(** ** Requests and responses *)

(** What the handlers read of a request: [req.headers.authorization] and
    the parsed [req.body]; [req.params.id] comes with the route. *)
Record Request : Type := {
  authorization : option string;
  body : JsValue
}.

(** An element of the listing of [GET /api/data]. *)
Module Item.
Record t : Type := mk {
  id : JsValue;
  title : JsValue;
  date : JsValue;
  startTime : JsValue;
  endTime : JsValue;
  userId : string;
  userEmail : string;
  userName : string
}.
End Item.

Inductive Body : Type :=
  | NoBody                              (* [res.end()] *)
  | ErrorBody (error : string)          (* [{ error }] *)
  | InvalidStructure                    (* [{ error: 'Invalid event structure', example: {...} }] *)
  | Success                             (* [{ success: true }] *)
  | Saved (itemsSaved : nat)            (* [{ success: true, itemsSaved }] *)
  | Listing (items : list Item.t).      (* the array of items *)

Record Response : Type := {
  status : nat;
  headers : list (string * string);
  payload : Body
}.

(** [res.status(code).json(b)] *)
Definition json (code : nat) (b : Body) : Response :=
  {| status := code; headers := []; payload := b |}.

(** ** Code the two variants share *)

(** [[...new Set(l)]]: the distinct elements, in order of first occurrence. *)
Fixpoint new_Set (l : list string) : list string :=
  match l with
  | [] => []
  | x :: rest => x :: filter (λ y, y ≠ x) (new_Set rest)
  end.

Definition userIds (bookings : list Row.t) : list string :=
  new_Set (Row.user_id <$> bookings).

(** The members of [Object.prototype], which the plain object
    [userEmails] inherits. *)
Definition Object_prototype : list string :=
  ["constructor"; "__defineGetter__"; "__defineSetter__"; "hasOwnProperty";
   "__lookupGetter__"; "__lookupSetter__"; "isPrototypeOf"; "propertyIsEnumerable";
   "toString"; "valueOf"; "__proto__"; "toLocaleString"].

Definition proto_member (k : string) : bool := bool_decide (k ∈ Object_prototype).

(** [userEmails[k] = v] for a text or [undefined] [v]: an own property,
    except under the key [__proto__], whose setter ignores a value that is
    neither an object nor [null]. *)
Definition set_email (k : string) (v : option string)
    (userEmails : gmap string (option string)) : gmap string (option string) :=
  if String.eqb k "__proto__" then userEmails else <[k := v]> userEmails.

(** The loop that fills [userEmails], one admin lookup per distinct owner;
    the map holds the own properties of the object. *)
Fixpoint fetch_userEmails (ids : list string) (userEmails : gmap string (option string))
  : M (gmap string (option string)) :=
  match ids with
  | [] => ret userEmails
  | userId :: rest =>
      let! userEmails' :=
        try_catch
          (let! r := Supabase.auth_admin_getUserById userId in
           match error r, data r with
           | None, Some user => ret (set_email userId (User.email user) userEmails)
           | _, _ => ret userEmails
           end)
          (λ err, ret (set_email userId (Some "Unknown User") userEmails)) in
      fetch_userEmails rest userEmails'
  end.

(** What [userEmails[k]] reads: an own property or nothing ([None] for
    [undefined]), or a member inherited from [Object.prototype], which is a
    function or an object: truthy, and without a [split]. *)
Inductive Looked : Type :=
  | Email (e : option string)
  | Member.

Definition email_of (userEmails : gmap string (option string)) (k : string) : Looked :=
  match userEmails !! k with
  | Some e => Email e
  | None => if proto_member k then Member else Email None
  end.

Definition truthy_string (e : option string) : bool :=
  match e with
  | Some s => negb (String.eqb s "")
  | None => false
  end.

(** [email.split('@')[0]] *)
Definition local_part (email : string) : string :=
  default "" (head (split "@" email)).

(** The item of a row whose owner's email reads as [e]. *)
Definition make_item (e : option string) (item : Row.t) : Item.t :=
  {| Item.id := Row.id item;
     Item.title := Row.title item;
     Item.date := Row.date item;
     Item.startTime := Row.start_time item;
     Item.endTime := Row.end_time item;
     Item.userId := Row.user_id item;
     Item.userEmail := if truthy_string e then default "" e else "Unknown User";
     Item.userName := if truthy_string e then local_part (default "" e) else "Unknown" |}.

(** The callback of [transformedData].  On an inherited member the
    condition of [userName] is truthy and the call of [split] throws. *)
Definition transform (userEmails : gmap string (option string)) (item : Row.t)
  : Outcome Item.t :=
  match email_of userEmails (Row.user_id item) with
  | Email e => Returned (make_item e item)
  | Member => Raised (TypeError "userEmails[item.user_id].split is not a function")
  end.

(** [l.map(f)] for a callback that may throw. *)
Fixpoint map_outcome {A B} (f : A → Outcome B) (l : list A) : Outcome (list B) :=
  match l with
  | [] => Returned []
  | x :: rest =>
      obind (f x) (λ y, obind (map_outcome f rest) (λ ys, Returned (y :: ys)))
  end.

Definition transformedData (userEmails : gmap string (option string)) (bookings : list Row.t)
  : Outcome (list Item.t) :=
  map_outcome (transform userEmails) bookings.

(** [app.get('/api/data', ...)] *)
Definition get_data : M Response :=
  try_catch
    (let! r := Supabase.select_order_date in
     match error r with
     | Some bookingsError => throw bookingsError
     | None =>
         match data r with
         | None => throw (TypeError "Cannot read properties of null (reading 'map')")
         | Some bookings =>
             let! userEmails := fetch_userEmails (userIds bookings) ∅ in
             let! items := lift (transformedData userEmails bookings) in
             ret {| status := 200;
                    headers := [("Cache-Control", "no-cache")];
                    payload := Listing items |}
         end
     end)
    (λ err, ret (json 500 (ErrorBody "Failed to load data"))).

(** [app.head('/api/data', ...)] *)
Definition head_data : M Response :=
  ret {| status := 200; headers := [("Cache-Control", "no-cache")]; payload := NoBody |}.

(** [l.every(f)]: stops at the first element [f] rejects. *)
Fixpoint every (f : JsValue → Outcome bool) (l : list JsValue) : Outcome bool :=
  match l with
  | [] => Returned true
  | x :: rest => obind (f x) (λ b, if b then every f rest else Returned false)
  end.

(** The callback of [isValid]:
    [event.title && date.test(event.date) && time.test(event.startTime) && time.test(event.endTime)] *)
Definition valid_event (event : JsValue) : Outcome bool :=
  obind (get_prop event "title") (λ title,
  if truthy title then
    obind (get_prop event "date") (λ date,
    obind (test date_pattern date) (λ date_ok,
    if date_ok then
      obind (get_prop event "startTime") (λ startTime,
      obind (test time_pattern startTime) (λ start_ok,
      if start_ok then
        obind (get_prop event "endTime") (λ endTime,
        test time_pattern endTime)
      else Returned false))
    else Returned false))
  else Returned false).

Definition isValid (events : list JsValue) : Outcome bool := every valid_event events.

(** The callback of [supabaseData].  [user] is [req.user] in the updated
    variant and the destructured [user] of [getUser] in the early one,
    where it may be [null]. *)
Definition prepare (user : option User.t) (event : JsValue) : M Row.t :=
  let! supplied := lift (get_prop event "id") in
  let! id := (if truthy supplied then ret supplied
              else let! t := Date_now in ret (JNum t)) in
  let! title := lift (get_prop event "title") in
  let! date := lift (get_prop event "date") in
  let! startTime := lift (get_prop event "startTime") in
  let! endTime := lift (get_prop event "endTime") in
  match user with
  | Some u => ret (Row.mk id title date startTime endTime (User.id u))
  | None => throw (TypeError "Cannot read properties of null (reading 'id')")
  end.

Definition supabaseData (user : option User.t) (events : list JsValue) : M (list Row.t) :=
  traverse (prepare user) events.

(** What follows the authentication in [app.post('/api/data', ...)], inside
    the handler's [try] block. *)
Definition save (user : option User.t) (req : Request) : M Response :=
  match body req with
  | JArr events =>
      let! ok := lift (isValid events) in
      if ok then
        let! rows := supabaseData user events in
        let! r := Supabase.upsert rows in
        match error r with
        | Some e => throw e
        | None => ret (json 200 (Saved (length events)))
        end
      else ret (json 400 InvalidStructure)
  | _ => ret (json 400 (ErrorBody "Data must be an array"))
  end.

(** The routes on [/api/data]. *)
Inductive Route : Type :=
  | HEAD_api_data
  | GET_api_data
  | POST_api_data
  | DELETE_api_data (id : string).

(** ** [server.js], the updated variant *)

Module Updated.

(** The middleware [authenticate].  It answers itself or hands the
    resolved user to the next handler; what the next handler throws is
    not caught here, the handler being asynchronous. *)
Definition authenticate (req : Request) (next : User.t → M Response) : M Response :=
  let! checked :=
    try_catch
      (match authorization req with
       | None | Some EmptyString =>
           ret (inl (json 401 (ErrorBody "Unauthorized - No token provided")))
       | Some authHeader =>
           let token := split " " authHeader !! 1%nat in
           let! r := Supabase.auth_getUser token in
           match error r, data r with
           | None, Some user => ret (inr user)
           | _, _ => ret (inl (json 401 (ErrorBody "Unauthorized - Invalid token")))
           end
       end)
      (λ err, ret (inl (json 500 (ErrorBody "Authentication failed")))) in
  match checked with
  | inl res => ret res
  | inr user => next user
  end.

(** [app.post('/api/data', authenticate, ...)] *)
Definition post_data (req : Request) : M Response :=
  authenticate req (λ user,
    try_catch (save (Some user) req)
      (λ err, ret (json 500 (ErrorBody "Failed to save data")))).

(** [app.delete('/api/data/:id', authenticate, ...)] *)
Definition delete_data (id : string) (req : Request) : M Response :=
  authenticate req (λ user,
    try_catch
      (let! r := Supabase.select_user_id_single id in
       match error r with
       | Some fetchError => throw fetchError
       | None =>
           match data r with
           | None => ret (json 404 (ErrorBody "Booking not found"))
           | Some booking_user_id =>
               if negb (String.eqb booking_user_id (User.id user))
               then ret (json 403 (ErrorBody "You can only delete your own bookings"))
               else
                 let! d := Supabase.delete_eq id in
                 match error d with
                 | Some e => throw e
                 | None => ret (json 200 Success)
                 end
           end
       end)
      (λ err, ret (json 500 (ErrorBody "Failed to delete event")))).

Definition app (route : Route) (req : Request) : M Response :=
  match route with
  | HEAD_api_data => head_data
  | GET_api_data => get_data
  | POST_api_data => post_data req
  | DELETE_api_data id => delete_data id req
  end.

End Updated.

(** ** The early variant *)

Module Early.

(** [app.post('/api/data', ...)] *)
Definition post_data (req : Request) : M Response :=
  try_catch
    (match authorization req with
     | None | Some EmptyString => ret (json 401 (ErrorBody "Unauthorized"))
     | Some authHeader =>
         let! r := Supabase.auth_getUser (split " " authHeader !! 1%nat) in
         match error r with
         | Some authError => throw authError
         | None => save (data r) req
         end
     end)
    (λ err, ret (json 500 (ErrorBody "Failed to save data"))).

(** [app.delete('/api/data/:id', ...)] *)
Definition delete_data (id : string) (req : Request) : M Response :=
  try_catch
    (let! d := Supabase.delete_eq id in
     match error d with
     | Some e => throw e
     | None => ret (json 200 Success)
     end)
    (λ err, ret (json 500 (ErrorBody "Failed to delete event"))).

Definition app (route : Route) (req : Request) : M Response :=
  match route with
  | HEAD_api_data => head_data
  | GET_api_data => get_data
  | POST_api_data => post_data req
  | DELETE_api_data id => delete_data id req
  end.

End Early.

(** ** What a batch becomes *)

(** [event.k], with [undefined] where the read would throw. *)
Definition field (event : JsValue) (k : string) : JsValue :=
  match get_prop event k with
  | Returned v => v
  | Raised _ => JUndefined
  end.

(** The event reads as an object: it is neither [null] nor [undefined]. *)
Definition readable (event : JsValue) : Prop :=
  event ≠ JNull ∧ event ≠ JUndefined.

(** The events [prepare] reads the clock for: those whose [id] is falsy. *)
Definition needs_id (event : JsValue) : bool := falsy (field event "id").

Definition fresh (events : list JsValue) : nat := length (filter (λ e, needs_id e = true) events).

(** The row [prepare] builds for a readable event when the clock says [t]. *)
Definition row_of (user : User.t) (t : Z) (event : JsValue) : Row.t :=
  Row.mk (if truthy (field event "id") then field event "id" else JNum t)
    (field event "title") (field event "date")
    (field event "startTime") (field event "endTime") (User.id user).

(** The rows of a batch, the clock having been read [n] times before. *)
Fixpoint rows_of (user : User.t) (clock : nat → Z) (n : nat) (events : list JsValue)
  : list Row.t :=
  match events with
  | [] => []
  | event :: rest =>
      row_of user (clock n) event
      :: rows_of user clock (if needs_id event then S n else n) rest
  end.



(** The handler both variants run once the caller is resolved. *)
Definition save_or_500 (user : User.t) (req : Request) : M Response :=
  try_catch (save (Some user) req)
    (λ err, ret (json 500 (ErrorBody "Failed to save data"))).


(** The world after a batch of [events] was accepted as [keyed]. *)
Definition after_upsert (events : list JsValue) (keyed : list (string * Row.t)) (w : World)
  : World :=
  with_bookings (Supabase.upsert_rows (bookings w) keyed)
    (with_faults (tail (faults w)) (with_reads (reads w + fresh events) w)).

(** ** Callers and owners *)

(** What the admin lookup makes of an owner. *)
Inductive Resolution : Type :=
  | ResolvedTo (email : option string)  (* a user and no error *)
  | NotResolved                         (* an error, or no user *)
  | LookupRaised.                       (* the call threw *)

Definition resolution (w : World) (userId : string) : Resolution :=
  match getUserById w userId with
  | Returned r =>
      match error r, data r with
      | None, Some user => ResolvedTo (User.email user)
      | _, _ => NotResolved
      end
  | Raised _ => LookupRaised
  end.

(** The email [userEmails] holds for an owner after the loop, by what the
    lookup gave. *)
Definition resolved_email (w : World) (userId : string) : option string :=
  match resolution w userId with
  | ResolvedTo e => e
  | NotResolved => None
  | LookupRaised => Some "Unknown User"
  end.

(** The owner reads from [userEmails] as a member inherited from
    [Object.prototype]: its identifier is the name of one, and the loop left
    no own property under it (the lookup gave no user, or the name is
    [__proto__]). *)
Definition inherits (w : World) (userId : string) : bool :=
  proto_member userId &&
  (String.eqb userId "__proto__" ||
   match resolution w userId with
   | NotResolved => true
   | _ => false
   end).

(** No stored owner reads as an inherited member; so it is when the owners
    are identifiers the provider issued (UUIDs). *)
Definition owners_readable (w : World) : Prop :=
  ∀ k r, bookings w !! k = Some r → inherits w (Row.user_id r) = false.

(** The item the listing shows for a row whose owner is readable. *)
Definition item_of (w : World) (r : Row.t) : Item.t :=
  make_item (resolved_email w (Row.user_id r)) r.

(** The owner fields of an item, by what the lookup of its owner gave. *)
Definition named_after (w : World) (item : Item.t) : Prop :=
  match resolution w (Item.userId item) with
  | ResolvedTo (Some email) =>
      if String.eqb email "" then
        Item.userEmail item = "Unknown User" ∧ Item.userName item = "Unknown"
      else Item.userEmail item = email ∧ Item.userName item = local_part email
  | ResolvedTo None | NotResolved =>
      Item.userEmail item = "Unknown User" ∧ Item.userName item = "Unknown"
  | LookupRaised =>
      Item.userEmail item = "Unknown User" ∧ Item.userName item = "Unknown User"
  end.

(** One more character of a number in base ten; other characters are
    skipped. *)
Definition digit_step (acc : Z) (c : ascii) : Z :=
  if is_digit c then 10 * acc + (Z.of_N (N_of_ascii c) - 48) else acc.

(** The number [YYYYMMDD] a text of the form [YYYY-MM-DD] denotes. *)
Definition day_number (s : string) : Z :=
  foldl digit_step 0 (list_ascii_of_string s).

(** The listing is in ascending order of [date]. *)
Definition ascending (items : list Item.t) : Prop :=
  StronglySorted (λ a b, Supabase.date_le (Item.date a) (Item.date b)) items.

(** A caller the identity provider resolves: the header is present and
    [getUser] answers the token with a user and no error. *)
Definition authenticated (w : World) (req : Request) (user : User.t) : Prop :=
  ∃ authHeader,
    authorization req = Some authHeader ∧ authHeader ≠ "" ∧
    getUser w (split " " authHeader !! 1%nat) = Returned (succeeded (Some user)).

(** A caller without a header, or with a token [getUser] answers with an
    error or with no user. *)
Definition unresolved (w : World) (req : Request) : Prop :=
  match authorization req with
  | None | Some EmptyString => True
  | Some authHeader =>
      ∃ r, getUser w (split " " authHeader !! 1%nat) = Returned r ∧
           (error r ≠ None ∨ data r = None)
  end.

(** ** A small deployment, for the examples *)

Definition alice : User.t := User.mk "alice-id" (Some "alice@example.org").
Definition bob : User.t := User.mk "bob-id" (Some "bob@example.org").

(** The sessions the identity provider knows. *)
Definition tokens (token : option string) : Outcome (Reply User.t) :=
  match token with
  | Some "alice-token" => Returned (succeeded (Some alice))
  | Some "bob-token" => Returned (succeeded (Some bob))
  | _ => Returned (failed {| message := "invalid JWT" |})
  end.

(** The admin lookup of the identity provider. *)
Definition directory (userId : string) : Outcome (Reply User.t) :=
  if String.eqb userId "alice-id" then Returned (succeeded (Some alice))
  else if String.eqb userId "bob-id" then Returned (succeeded (Some bob))
  else Returned (failed {| message := "User not found" |}).

(** A store without incidents holding [tbl], at a fixed millisecond. *)
Definition world_of (tbl : gmap string Row.t) : World :=
  {| bookings := tbl; faults := []; now := λ _, 1700000000000; reads := 0%nat;
     getUser := tokens; getUserById := directory |}.

Definition bearer (token : string) (b : JsValue) : Request :=
  {| authorization := Some ("Bearer " +:+ token); body := b |}.

(** The admin lookup during an outage: every call throws. *)
Definition outage (userId : string) : Outcome (Reply User.t) :=
  Raised {| message := "fetch failed" |}.

Definition anonymous (b : JsValue) : Request :=
  {| authorization := None; body := b |}.

(** Alice's booking, stored under the key 7. *)
Definition standup : Row.t :=
  Row.mk (JNum 7) (JStr "Standup") (JStr "2024-01-05") (JStr "09:00") (JStr "09:15") "alice-id".

Definition alices_table : gmap string Row.t := {[ "7" := standup ]}.

(** Bob's booking, two days earlier, stored under the key 9. *)
Definition retro : Row.t :=
  Row.mk (JNum 9) (JStr "Retro") (JStr "2024-01-03") (JStr "16:00") (JStr "17:00") "bob-id".

Definition shared_table : gmap string Row.t := {[ "7" := standup; "9" := retro ]}.

(** Two valid events that carry the same identifier. *)
Definition planning : JsValue :=
  JObj [("id", JNum 1); ("title", JStr "Planning"); ("date", JStr "2024-02-01");
        ("startTime", JStr "10:00"); ("endTime", JStr "11:00")].

Definition review : JsValue :=
  JObj [("id", JNum 1); ("title", JStr "Review"); ("date", JStr "2024-02-02");
        ("startTime", JStr "14:00"); ("endTime", JStr "15:00")].


(** An event that passes the two patterns and denotes no day and no time. *)
Definition impossible : JsValue :=
  JObj [("title", JStr "Standup"); ("date", JStr "2024-13-40");
        ("startTime", JStr "99:99"); ("endTime", JStr "99:99")].

(** A valid event without identifier that names another owner. *)
Definition forged : JsValue :=
  JObj [("title", JStr "Offsite"); ("date", JStr "2024-03-01");
        ("startTime", JStr "08:00"); ("endTime", JStr "18:00");
        ("userId", JStr "bob-id"); ("user_id", JStr "bob-id")].


(** A booking whose owner is named like a member of [Object.prototype] and
    is unknown to the provider, stored under the key 3. *)
Definition orphan : Row.t :=
  Row.mk (JNum 3) (JStr "Legacy") (JStr "2023-12-31") (JStr "23:00") (JStr "23:59")
    "constructor".

Definition legacy_table : gmap string Row.t := {[ "3" := orphan ]}.



(** The same store while the admin lookup is down. *)
Definition world_during_outage (tbl : gmap string Row.t) : World :=
  {| bookings := tbl; faults := []; now := λ _, 1700000000000; reads := 0%nat;
     getUser := tokens; getUserById := outage |}.

(** ** The rest of the gateway: what the listing shows, and the endpoints
    under [/api/auth] *)

(** The columns of the row an item was made of. *)
Definition row_of_item (item : Item.t) : Row.t :=
  Row.mk (Item.id item) (Item.title item) (Item.date item)
    (Item.startTime item) (Item.endTime item) (Item.userId item).

(** The day a [date] value denotes when it is a text. *)
Definition day (v : JsValue) : Z :=
  match v with
  | JStr s => day_number s
  | _ => 0
  end.

(** A [date] value of the form the validation asks for. *)
Definition well_dated (v : JsValue) : Prop :=
  ∃ s, v = JStr s ∧ matches date_pattern s = true.

(** The store answers its next call with an error. *)
Definition next_fails (w : World) : Prop :=
  ∃ e fs, faults w = Some e :: fs.

(** A request with the given [Authorization] header. *)
Definition with_header (h : string) (b : JsValue) : Request :=
  {| authorization := Some h; body := b |}.

(** The identity provider during an outage of [getUser]: every call throws. *)
Definition world_without_provider (tbl : gmap string Row.t) : World :=
  {| bookings := tbl; faults := []; now := λ _, 1700000000000; reads := 0%nat;
     getUser := λ _, Raised {| message := "fetch failed" |}; getUserById := directory |}.


(** A valid event that carries the identifier of Alice's booking. *)
Definition takeover : JsValue :=
  JObj [("id", JNum 7); ("title", JStr "Bob was here"); ("date", JStr "2024-01-05");
        ("startTime", JStr "09:00"); ("endTime", JStr "09:15")].

(** A valid event under the identifier 11, which the tables above do not hold. *)
Definition offsite : JsValue :=
  JObj [("id", JStr "11"); ("title", JStr "Offsite"); ("date", JStr "2024-03-01");
        ("startTime", JStr "08:00"); ("endTime", JStr "18:00")].

(** The store takes a statement when every [id] is a key and no key occurs
    twice. *)
Definition storable (rows : list Row.t) : Prop :=
  ∃ keyed, Supabase.keyed_rows rows = Some keyed ∧ NoDup keyed.*1.

(** The element brings its own identifier. *)
Definition has_id (event : JsValue) : Prop := truthy (field event "id") = true.

(** The middleware of [server.js] once more, for handlers with another kind
    of answer: [reject code msg] is [res.status(code).json({ error: msg })]. *)
Definition authenticate_as {R : Type} (reject : nat → string → R) (req : Request)
    (next : User.t → M R) : M R :=
  let! checked :=
    try_catch
      (match authorization req with
       | None | Some EmptyString =>
           ret (inl (reject 401%nat "Unauthorized - No token provided"))
       | Some authHeader =>
           let token := split " " authHeader !! 1%nat in
           let! r := Supabase.auth_getUser token in
           match error r, data r with
           | None, Some user => ret (inr user)
           | _, _ => ret (inl (reject 401%nat "Unauthorized - Invalid token"))
           end
       end)
      (λ err, ret (inl (reject 500%nat "Authentication failed"))) in
  match checked with
  | inl res => ret res
  | inr user => next user
  end.

(** ** The endpoints under [/api/auth] *)

(** The identity provider resolves tokens by [f] from now on. *)
Definition with_getUser (f : option string → Outcome (Reply User.t)) (w : World) : World :=
  {| bookings := bookings w; faults := faults w; now := now w; reads := reads w;
     getUser := f; getUserById := getUserById w |}.

Module Auth.

(** A session as the provider issues it; the gateway passes it on unread. *)
Record Session : Type := { access_token : string }.

(** The [data] of [signInWithPassword]: [{ user, session }]. *)
Record SignIn : Type := { user : option User.t; session : option Session }.

(** The calls of the endpoints to the identity provider.  They go through
    the one [supabase] client that every route shares and reach the provider
    behind it, so each is an action on the world: what the store and
    [getUser] answer afterwards is what the call left. *)
Record Provider : Type := {
  signUp : JsValue → JsValue → M (Reply unit);
  signInWithPassword : JsValue → JsValue → M (Reply SignIn);
  signOut : M (Reply unit)
}.

Inductive Body : Type :=
  | Failure (error : string)       (* [{ error }] *)
  | SignedUp (message : string)    (* [{ success: true, message }] *)
  | LoggedIn (user : option User.t) (session : option Session)
                                   (* [{ success: true, user, session }] *)
  | LoggedOut                      (* [{ success: true }] *)
  | CurrentUser (user : User.t).   (* [{ user }] *)

Record Response : Type := { status : nat; payload : Body }.

Definition json (code : nat) (b : Body) : Response := {| status := code; payload := b |}.

(** [const { email, password } = req.body] *)
Definition credentials (b : JsValue) : Outcome (JsValue * JsValue) :=
  match b with
  | JUndefined =>
      Raised (TypeError "Cannot destructure property 'email' of 'req.body' as it is undefined.")
  | JNull =>
      Raised (TypeError "Cannot destructure property 'email' of 'req.body' as it is null.")
  | _ => Returned (field b "email", field b "password")
  end.

(** [app.post('/api/auth/signup', ...)] *)
Definition signup (p : Provider) (req : Request) : M Response :=
  try_catch
    (let! c := lift (credentials (body req)) in
     let! r := signUp p c.1 c.2 in
     match error r with
     | Some e => throw e
     | None => ret (json 200 (SignedUp "Please check your email for verification link"))
     end)
    (λ err, ret (json 400 (Failure (message err)))).

(** [app.post('/api/auth/login', ...)] *)
Definition login (p : Provider) (req : Request) : M Response :=
  try_catch
    (let! c := lift (credentials (body req)) in
     let! r := signInWithPassword p c.1 c.2 in
     match error r with
     | Some e => throw e
     | None =>
         match data r with
         | Some d => ret (json 200 (LoggedIn (user d) (session d)))
         | None => throw (TypeError "Cannot read properties of null (reading 'user')")
         end
     end)
    (λ err, ret (json 401 (Failure (message err)))).

(** [app.post('/api/auth/logout', authenticate, ...)] *)
Definition logout (p : Provider) (req : Request) : M Response :=
  authenticate_as (λ code msg, json code (Failure msg)) req (λ _,
    try_catch
      (let! r := signOut p in
       match error r with
       | Some e => throw e
       | None => ret (json 200 LoggedOut)
       end)
      (λ err, ret (json 500 (Failure "Failed to logout")))).

(** [app.get('/api/auth/user', authenticate, ...)] *)
Definition current_user (req : Request) : M Response :=
  authenticate_as (λ code msg, json code (Failure msg)) req (λ user,
    try_catch (ret (json 200 (CurrentUser user)))
      (λ err, ret (json 500 (Failure "Failed to fetch user")))).

(** The provider took the credentials of the body in the world [w]: the
    call returned, with no error. *)
Definition accepted {A} (call : JsValue → JsValue → M (Reply A)) (b : JsValue) (w : World)
    (r : Reply A) : Prop :=
  ∃ email password,
    credentials b = Returned (email, password) ∧ (call email password w).1 = Returned r ∧
    error r = None.

(** The world after the endpoint has put the credentials of the body to the
    provider: the world the call left, or [w] itself when the body gives no
    credentials and the provider is never reached. *)
Definition after {A} (call : JsValue → JsValue → M (Reply A)) (b : JsValue) (w : World) : World :=
  match credentials b with
  | Returned (email, password) => (call email password w).2
  | Raised _ => w
  end.

(** The one session the example provider issues. *)
Definition resolves_session (known : option string → Outcome (Reply User.t))
    (token : option string) : Outcome (Reply User.t) :=
  match token with
  | Some "alice-session" => Returned (succeeded (Some alice))
  | _ => known token
  end.

Definition revokes_session (known : option string → Outcome (Reply User.t))
    (token : option string) : Outcome (Reply User.t) :=
  match token with
  | Some "alice-session" => Returned (failed {| message := "invalid JWT" |})
  | _ => known token
  end.

(** A provider that knows Alice's password only.  Signing in issues the
    session [alice-session], which [getUser] resolves from then on; signing
    out revokes it. *)
Definition alice_only : Provider :=
  {| signUp := λ email password,
       match email with
       | JStr "carol@example.org" => ret (succeeded None)
       | _ => ret (failed {| message := "User already registered" |})
       end;
     signInWithPassword := λ email password,
       match email, password with
       | JStr "alice@example.org", JStr "correct horse" =>
           λ w, (Returned (succeeded (Some {| user := Some alice;
                                              session := Some {| access_token := "alice-session" |} |})),
                 with_getUser (resolves_session (getUser w)) w)
       | _, _ => ret (failed {| message := "Invalid login credentials" |})
       end;
     signOut := λ w, (Returned (succeeded None), with_getUser (revokes_session (getUser w)) w) |}.

End Auth.

(** * Properties *)

(** ** Running the monad *)

Lemma bind_ret_l {A B} (a : A) (k : A → M B) (w : World) : bind (ret a) k w = k a w.
Proof. reflexivity. Qed.

Lemma bind_run {A B} (m : M A) (k : A → M B) (w w' : World) (a : A) :
  m w = (Returned a, w') → bind m k w = k a w'.
Proof. intros H. unfold bind. by rewrite H. Qed.

Lemma bind_raise {A B} (m : M A) (k : A → M B) (w w' : World) (e : Error) :
  m w = (Raised e, w') → bind m k w = (Raised e, w').
Proof. intros H. unfold bind. by rewrite H. Qed.

Lemma try_catch_run {A} (m : M A) (h : Error → M A) (w w' : World) (a : A) :
  m w = (Returned a, w') → try_catch m h w = (Returned a, w').
Proof. intros H. unfold try_catch. by rewrite H. Qed.

Lemma try_catch_raise {A} (m : M A) (h : Error → M A) (w w' : World) (e : Error) :
  m w = (Raised e, w') → try_catch m h w = h e w'.
Proof. intros H. unfold try_catch. by rewrite H. Qed.

(** ** The store *)

Lemma healthy_tail (w : World) : healthy w → healthy (with_faults (tail (faults w)) w).
Proof.
  unfold healthy. simpl. destruct (faults w) as [|f fs]; simpl; [done|].
  intros H. by apply Forall_cons_1 in H as [_ H].
Qed.

Lemma next_fault_healthy (w : World) :
  healthy w → Supabase.next_fault w = (Returned None, with_faults (tail (faults w)) w).
Proof.
  unfold healthy, Supabase.next_fault. destruct w as [tbl fs clk n gu gubi]; simpl.
  destruct fs as [|f fs]; simpl; [done|].
  intros H. apply Forall_cons_1 in H as [-> _]. done.
Qed.

Lemma healthy_with_bookings (tbl : gmap string Row.t) (w : World) :
  healthy w → healthy (with_bookings tbl w).
Proof. done. Qed.

Lemma healthy_with_reads (n : nat) (w : World) : healthy w → healthy (with_reads n w).
Proof. done. Qed.

Lemma authenticate_resolved (w : World) (req : Request) (user : User.t)
    (next : User.t → M Response) :
  authenticated w req user → Updated.authenticate req next w = next user w.
Proof.
  intros (h & Hh & Hne & Hu). unfold Updated.authenticate.
  rewrite Hh. destruct h as [|c h]; [done|].
  unfold bind, try_catch, Supabase.auth_getUser. rewrite Hu. done.
Qed.

Lemma authenticate_unresolved (w : World) (req : Request) (next : User.t → M Response) :
  unresolved w req →
  ∃ msg, Updated.authenticate req next w = (Returned (json 401 (ErrorBody msg)), w).
Proof.
  unfold unresolved, Updated.authenticate. intros H.
  destruct (authorization req) as [[|c h]|]; [by eexists..| |by eexists].
  destruct H as (r & Hr & Hbad).
  unfold bind, try_catch, Supabase.auth_getUser. rewrite Hr.
  destruct r as [[u|] [e|]]; simpl in *; try by eexists.
  by destruct Hbad.
Qed.

Lemma select_single_found (w : World) (id : string) (row : Row.t) :
  healthy w → bookings w !! id = Some row →
  Supabase.select_user_id_single id w
  = (Returned (succeeded (Some (Row.user_id row))), with_faults (tail (faults w)) w).
Proof.
  intros Hw Hrow. unfold Supabase.select_user_id_single.
  rewrite (bind_run _ _ _ _ _ (next_fault_healthy w Hw)). simpl. by rewrite Hrow.
Qed.

Lemma select_single_missing (w : World) (id : string) :
  healthy w → bookings w !! id = None →
  ∃ e, Supabase.select_user_id_single id w
       = (Returned (failed e), with_faults (tail (faults w)) w).
Proof.
  intros Hw Hrow. unfold Supabase.select_user_id_single.
  rewrite (bind_run _ _ _ _ _ (next_fault_healthy w Hw)). simpl. rewrite Hrow.
  by eexists.
Qed.

Lemma delete_eq_healthy (w : World) (id : string) :
  healthy w →
  Supabase.delete_eq id w
  = (Returned (succeeded None),
     with_bookings (delete id (bookings w)) (with_faults (tail (faults w)) w)).
Proof.
  intros Hw. unfold Supabase.delete_eq.
  by rewrite (bind_run _ _ _ _ _ (next_fault_healthy w Hw)).
Qed.

(** ** Deleting a booking *)

(** C2: on a healthy store, [DELETE /api/data/:id] of an existing booking by
    an authenticated caller who is not its owner answers 403 and leaves the
    table as it was; by its owner it answers success and the row is gone. *)
Theorem delete_checks_owner (w : World) (req : Request) (user : User.t)
    (id : string) (row : Row.t) :
  healthy w → authenticated w req user → bookings w !! id = Some row →
  let run := Updated.app (DELETE_api_data id) req w in
  (Row.user_id row ≠ User.id user →
     run.1 = Returned (json 403 (ErrorBody "You can only delete your own bookings")) ∧
     bookings run.2 = bookings w ∧ bookings run.2 !! id = Some row) ∧
  (Row.user_id row = User.id user →
     run.1 = Returned (json 200 Success) ∧
     bookings run.2 = delete id (bookings w) ∧ bookings run.2 !! id = None).
Proof.
  intros Hw Hauth Hrow. simpl. unfold Updated.delete_data.
  rewrite (authenticate_resolved _ _ _ _ Hauth).
  unfold try_catch.
  rewrite (bind_run _ _ _ _ _ (select_single_found w id row Hw Hrow)). simpl.
  split; intros Howner.
  - apply String.eqb_neq in Howner. rewrite Howner. simpl. done.
  - apply String.eqb_eq in Howner. rewrite Howner. simpl.
    rewrite (bind_run _ _ _ _ _ (delete_eq_healthy _ id (healthy_tail w Hw))). simpl.
    split; [done|]. split; [done|]. apply lookup_delete_eq.
Qed.

Lemma healthy_world_of (tbl : gmap string Row.t) : healthy (world_of tbl).
Proof. constructor. Qed.

Lemma alice_authenticated (tbl : gmap string Row.t) (b : JsValue) :
  authenticated (world_of tbl) (bearer "alice-token" b) alice.
Proof. exists "Bearer alice-token". repeat split; done. Qed.

Lemma bob_authenticated (tbl : gmap string Row.t) (b : JsValue) :
  authenticated (world_of tbl) (bearer "bob-token" b) bob.
Proof. exists "Bearer bob-token". repeat split; done. Qed.

Lemma delete_checks_owner_witness :
  let w := world_of alices_table in
  let by_bob := Updated.app (DELETE_api_data "7") (bearer "bob-token" JUndefined) w in
  let by_alice := Updated.app (DELETE_api_data "7") (bearer "alice-token" JUndefined) w in
  (by_bob.1 = Returned (json 403 (ErrorBody "You can only delete your own bookings")) ∧
   bookings by_bob.2 !! "7" = Some standup) ∧
  (by_alice.1 = Returned (json 200 Success) ∧ bookings by_alice.2 !! "7" = None).
Proof.
  split.
  - destruct (delete_checks_owner (world_of alices_table) (bearer "bob-token" JUndefined)
                bob "7" standup) as [H _].
    + apply healthy_world_of.
    + apply bob_authenticated.
    + reflexivity.
    + destruct H as (H1 & _ & H3); [discriminate|]. exact (conj H1 H3).
  - destruct (delete_checks_owner (world_of alices_table) (bearer "alice-token" JUndefined)
                alice "7" standup) as [_ H].
    + apply healthy_world_of.
    + apply alice_authenticated.
    + reflexivity.
    + destruct H as (H1 & _ & H3); [reflexivity|]. exact (conj H1 H3).
Defined.

(** Every way through the updated [DELETE] handler. *)
Ltac unfold_handlers :=
  unfold Updated.app, Early.app, Updated.delete_data, Updated.post_data,
    Early.delete_data, Early.post_data, Updated.authenticate,
    Supabase.select_user_id_single, Supabase.delete_eq, Supabase.auth_getUser,
    Supabase.next_fault, try_catch, bind, ret, throw, lift.

(** The updated handler has no way to its 404: [single] reports a missing
    row as an error, which the handler throws before it looks at the row. *)
Lemma delete_never_answers_404 (w : World) (req : Request) (id : string) :
  ∀ res, (Updated.delete_data id req w).1 = Returned res → status res ≠ 404%nat.
Proof.
  intros res. unfold_handlers.
  repeat (case_match; simplify_eq/=); intros; simplify_eq/=; done.
Qed.

(** Deleting an identifier no row carries: the lookup fails, the handler
    throws, and the answer is the 500 of its [catch]. *)
Lemma delete_missing (w : World) (req : Request) (user : User.t) (id : string) :
  healthy w → authenticated w req user → bookings w !! id = None →
  let run := Updated.app (DELETE_api_data id) req w in
  run.1 = Returned (json 500 (ErrorBody "Failed to delete event")) ∧
  bookings run.2 = bookings w.
Proof.
  intros Hw Hauth Hrow. simpl. unfold Updated.delete_data.
  rewrite (authenticate_resolved _ _ _ _ Hauth). unfold try_catch.
  destruct (select_single_missing w id Hw Hrow) as [e He].
  rewrite (bind_run _ _ _ _ _ He). done.
Qed.

(** C3: the table holds Alice's booking under 7 only; Alice, authenticated,
    deletes 8.  The claim promises 404; the handler answers 500, and changes
    nothing. *)
Theorem delete_unknown_id_answers_500 :
  let w := world_of alices_table in
  let run := Updated.app (DELETE_api_data "8") (bearer "alice-token" JUndefined) w in
  bookings w !! "8" = None ∧
  run.1 = Returned (json 500 (ErrorBody "Failed to delete event")) ∧
  bookings run.2 = bookings w.
Proof. vm_compute. done. Qed.

(** ** Callers without a resolved token *)

(** In the updated variant a caller without a header, or whose token the
    identity provider does not resolve, gets 401 from [POST] and from
    [DELETE], and the world is as before. *)
Lemma updated_rejects_unresolved (w : World) (req : Request) (route : Route) :
  unresolved w req → route = POST_api_data ∨ (∃ id, route = DELETE_api_data id) →
  ∃ msg, Updated.app route req w = (Returned (json 401 (ErrorBody msg)), w).
Proof.
  intros Hun [->|[id ->]]; simpl.
  - by apply authenticate_unresolved.
  - by apply authenticate_unresolved.
Qed.

(** C5: the early variant does not authenticate [DELETE]: a request without
    an [Authorization] header deletes Alice's booking and is answered 200,
    where the claim promises 401 and an untouched store. *)
Theorem early_delete_without_token :
  let w := world_of alices_table in
  let req := anonymous JUndefined in
  let run := Early.app (DELETE_api_data "7") req w in
  unresolved w req ∧
  bookings w !! "7" = Some standup ∧
  run.1 = Returned (json 200 Success) ∧
  bookings run.2 !! "7" = None.
Proof. vm_compute. done. Qed.

(** The early [POST] throws the provider's error instead of answering 401. *)
Lemma early_post_with_bad_token :
  let w := world_of alices_table in
  let req := bearer "stale-token" (JArr []) in
  unresolved w req ∧
  (Early.app POST_api_data req w).1 = Returned (json 500 (ErrorBody "Failed to save data")).
Proof.
  split; [|by vm_compute].
  eexists. split; [reflexivity|]. left. done.
Qed.

(** ** The two variants of [DELETE] *)

(** The updated handler removes a row only for its authenticated owner. *)
Lemma updated_delete_only_by_owner (w : World) (req : Request) (id : string) (row : Row.t) :
  bookings w !! id = Some row →
  bookings (Updated.delete_data id req w).2 !! id = None →
  ∃ user, authenticated w req user ∧ Row.user_id row = User.id user.
Proof.
  intros Hrow. unfold_handlers. unfold authenticated.
  destruct (authorization req) as [[|c h]|] eqn:Hh; simpl; try congruence.
  destruct (getUser w _) as [[[u|] [e|]]|e] eqn:Hu; simpl; try congruence.
  destruct (faults w) as [|[f|] fs] eqn:Hf; simpl; rewrite ?Hrow; simpl; try congruence.
  - destruct (String.eqb_spec (Row.user_id row) (User.id u)) as [Heq|Hne]; simpl; [|congruence].
    intros _. exists u. split; [|done]. eexists. by rewrite Hu.
  - destruct (String.eqb_spec (Row.user_id row) (User.id u)) as [Heq|Hne]; simpl; [|congruence].
    intros _. exists u. split; [|done]. eexists. by rewrite Hu.
Qed.

(** C8: the two [DELETE] handlers differ.  On Alice's booking and Bob's
    token (or no token at all) the early variant deletes the row and answers
    200, the updated variant answers 403 (401) and keeps it; and whenever
    the updated variant removes a row, its caller is the authenticated
    owner. *)
Theorem delete_variants_differ :
  (∃ (w : World) (id : string) (row : Row.t) (req anon : Request),
      bookings w !! id = Some row ∧
      (Early.app (DELETE_api_data id) req w).1 = Returned (json 200 Success) ∧
      bookings (Early.app (DELETE_api_data id) req w).2 !! id = None ∧
      (Updated.app (DELETE_api_data id) req w).1
        = Returned (json 403 (ErrorBody "You can only delete your own bookings")) ∧
      bookings (Updated.app (DELETE_api_data id) req w).2 !! id = Some row ∧
      (Early.app (DELETE_api_data id) anon w).1 = Returned (json 200 Success) ∧
      bookings (Early.app (DELETE_api_data id) anon w).2 !! id = None ∧
      (Updated.app (DELETE_api_data id) anon w).1
        = Returned (json 401 (ErrorBody "Unauthorized - No token provided")) ∧
      bookings (Updated.app (DELETE_api_data id) anon w).2 !! id = Some row) ∧
  (∀ (w : World) (id : string) (row : Row.t) (req : Request),
      bookings w !! id = Some row →
      bookings (Updated.app (DELETE_api_data id) req w).2 !! id = None →
      ∃ user, authenticated w req user ∧ Row.user_id row = User.id user).
Proof.
  split.
  - exists (world_of alices_table), "7", standup, (bearer "bob-token" JUndefined),
      (anonymous JUndefined).
    vm_compute. done.
  - intros w id row req. apply updated_delete_only_by_owner.
Qed.

(** ** Listing the bookings *)

Lemma text_le_total (a b : string) : Supabase.text_le a b = true ∨ Supabase.text_le b a = true.
Proof.
  unfold Supabase.text_le.
  destruct (String_as_OT.compare_spec a b) as [Heq|Hlt|Hgt]; [by left..|].
  right. destruct (String_as_OT.compare_spec b a) as [?|?|Hlt]; [done..|].
  exfalso. apply (irreflexivity String_as_OT.lt a). by etransitivity.
Qed.

Lemma text_le_trans (a b c : string) :
  Supabase.text_le a b = true → Supabase.text_le b c = true → Supabase.text_le a c = true.
Proof.
  unfold Supabase.text_le.
  destruct (String_as_OT.compare_spec a b) as [->|Hab|?]; [done| |done].
  destruct (String_as_OT.compare_spec b c) as [<-|Hbc|?]; [| |done].
  - intros _ _. destruct (String_as_OT.compare_spec a b) as [?|?|Hba]; [done..|].
    exfalso. apply (irreflexivity String_as_OT.lt a). by etransitivity.
  - intros _ _. destruct (String_as_OT.compare_spec a c) as [?|?|Hca]; [done..|].
    exfalso. apply (irreflexivity String_as_OT.lt a).
    etransitivity; [exact Hab|]. by etransitivity.
Qed.

#[local] Instance row_le_total : Total Supabase.row_le.
Proof. intros r1 r2. apply text_le_total. Qed.

#[local] Instance row_le_trans : Transitive Supabase.row_le.
Proof. intros r1 r2 r3. apply text_le_trans. Qed.

Lemma select_order_date_cases (w : World) :
  Supabase.select_order_date w
  = match faults w with
    | Some e :: fs => (Returned (failed e), with_faults fs w)
    | None :: fs =>
        (Returned (succeeded (Some (merge_sort Supabase.row_le (map_to_list (bookings w)).*2))),
         with_faults fs w)
    | [] =>
        (Returned (succeeded (Some (merge_sort Supabase.row_le (map_to_list (bookings w)).*2))),
         w)
    end.
Proof.
  unfold Supabase.select_order_date, Supabase.next_fault, bind.
  by destruct (faults w) as [|[e|] fs].
Qed.

Lemma select_order_date_healthy (w : World) :
  healthy w →
  Supabase.select_order_date w
  = (Returned (succeeded (Some (merge_sort Supabase.row_le (map_to_list (bookings w)).*2))),
     with_faults (tail (faults w)) w).
Proof.
  intros Hw. unfold Supabase.select_order_date.
  by rewrite (bind_run _ _ _ _ _ (next_fault_healthy w Hw)).
Qed.

(** The loop over the owners leaves the world alone, and the own properties
    of [userEmails] end up as the lookups of the owners it visited gave
    them; none is ever set under [__proto__]. *)
Lemma fetch_userEmails_spec (ids : list string) (m : gmap string (option string)) (w : World) :
  ∃ m', fetch_userEmails ids m w = (Returned m', w) ∧
    ∀ k, m' !! k =
         if decide (k ∈ ids ∧ k ≠ "__proto__") then
           match resolution w k with
           | ResolvedTo e => Some e
           | NotResolved => m !! k
           | LookupRaised => Some (Some "Unknown User")
           end
         else m !! k.
Proof.
  revert m. induction ids as [|userId rest IH]; intros m.
  - exists m. split; [done|]. intros k. rewrite decide_False; [done|]. set_solver.
  - simpl.
    set (m1 := match resolution w userId with
               | ResolvedTo e => set_email userId e m
               | NotResolved => m
               | LookupRaised => set_email userId (Some "Unknown User") m
               end).
    assert (Hstep : try_catch
              (let! r := Supabase.auth_admin_getUserById userId in
               match error r, data r with
               | None, Some user => ret (set_email userId (User.email user) m)
               | _, _ => ret m
               end)
              (λ _, ret (set_email userId (Some "Unknown User") m)) w = (Returned m1, w)).
    { unfold m1, resolution, try_catch, bind, Supabase.auth_admin_getUserById.
      destruct (getUserById w userId) as [[[u|] [e|]]|e]; done. }
    rewrite (bind_run _ _ _ _ _ Hstep).
    destruct (IH m1) as (m' & Hrun & Hm'). exists m'. split; [done|].
    intros k. rewrite Hm'.
    assert (Hm1 : m1 !! k =
                  if decide (k = userId ∧ k ≠ "__proto__") then
                    match resolution w k with
                    | ResolvedTo e => Some e
                    | NotResolved => m !! k
                    | LookupRaised => Some (Some "Unknown User")
                    end
                  else m !! k).
    { unfold m1, set_email. destruct (decide (k = userId)) as [->|Hne].
      - destruct (String.eqb_spec userId "__proto__") as [Hp|Hp].
        + rewrite decide_False by (intros [_ ?]; done). by destruct (resolution w userId).
        + rewrite decide_True by done.
          destruct (resolution w userId); by rewrite ?lookup_insert_eq.
      - rewrite decide_False by (intros [? _]; done).
        destruct (resolution w userId), (String.eqb userId "__proto__");
          by rewrite ?lookup_insert_ne. }
    rewrite Hm1.
    repeat case_decide; try (by destruct (resolution w k)); exfalso;
      rewrite ?elem_of_cons in *; naive_solver.
Qed.

Lemma elem_of_new_Set (l : list string) (x : string) : x ∈ new_Set l ↔ x ∈ l.
Proof.
  induction l as [|y l IH]; simpl; [done|].
  rewrite !elem_of_cons, list_elem_of_filter, IH.
  destruct (decide (x = y)); naive_solver.
Qed.

(** After the loop, an owner it visited reads from [userEmails] as an
    inherited member when [inherits] says so, and as its resolved email
    otherwise. *)
Lemma fetched_emails (ids : list string) (w : World) :
  ∃ m, fetch_userEmails ids ∅ w = (Returned m, w) ∧
    ∀ k, k ∈ ids →
         email_of m k = if inherits w k then Member else Email (resolved_email w k).
Proof.
  destruct (fetch_userEmails_spec ids ∅ w) as (m & Hrun & Hm).
  exists m. split; [done|]. intros k Hk.
  unfold email_of, inherits, resolved_email. rewrite Hm, lookup_empty.
  destruct (String.eqb_spec k "__proto__") as [->|Hp].
  - rewrite decide_False by (intros [_ ?]; done). done.
  - rewrite decide_True by done.
    destruct (resolution w k); simpl; rewrite ?andb_false_r, ?andb_true_r; done.
Qed.

Lemma map_outcome_returned {A B} (f : A → Outcome B) (g : A → B) (l : list A) :
  Forall (λ x, f x = Returned (g x)) l → map_outcome f l = Returned (g <$> l).
Proof. induction 1 as [|x l Hx Hl IH]; simpl; [done|]. by rewrite Hx, IH. Qed.

Lemma map_outcome_raised {A B} (f : A → Outcome B) (l : list A) :
  Exists (λ x, ∃ e, f x = Raised e) l → ∃ e, map_outcome f l = Raised e.
Proof.
  induction l as [|x l IH]; intros Hex; [by apply Exists_nil in Hex|].
  simpl. destruct (f x) as [y|e] eqn:Hx; [|by eexists].
  apply Exists_cons in Hex as [[e He]|Hex]; [congruence|].
  destruct (IH Hex) as [e ->]. by eexists.
Qed.

Lemma transformedData_fetched (w : World) (rows : list Row.t) (m : gmap string (option string)) :
  (∀ k, k ∈ userIds rows →
        email_of m k = if inherits w k then Member else Email (resolved_email w k)) →
  (Forall (λ r, inherits w (Row.user_id r) = false) rows →
   transformedData m rows = Returned (item_of w <$> rows)) ∧
  (Exists (λ r, inherits w (Row.user_id r) = true) rows →
   ∃ e, transformedData m rows = Raised e).
Proof.
  intros Hm.
  assert (Hrow : ∀ r, r ∈ rows →
            transform m r = if inherits w (Row.user_id r)
                            then Raised (TypeError "userEmails[item.user_id].split is not a function")
                            else Returned (item_of w r)).
  { intros r Hr. unfold transform. rewrite Hm.
    - by destruct (inherits w (Row.user_id r)).
    - unfold userIds. apply elem_of_new_Set, list_elem_of_fmap. by exists r. }
  split; intros H.
  - apply map_outcome_returned, Forall_forall. intros r Hr.
    rewrite (Hrow r Hr). by rewrite (proj1 (Forall_forall _ _) H r Hr).
  - apply map_outcome_raised. apply Exists_exists in H as (r & Hr & Hinh).
    apply Exists_exists. exists r. split; [done|]. rewrite (Hrow r Hr), Hinh. by eexists.
Qed.

(** The store's next call fails: the head of the schedule is an error. *)
Lemma not_next_fails_rows (w : World) :
  (¬ ∃ e fs, faults w = Some e :: fs) →
  ∃ w', bookings w' = bookings w ∧ getUserById w' = getUserById w ∧
        faults w' = tail (faults w) ∧
        Supabase.select_order_date w
        = (Returned (succeeded (Some (merge_sort Supabase.row_le (map_to_list (bookings w)).*2))),
           w').
Proof.
  intros Hok. rewrite select_order_date_cases.
  destruct (faults w) as [|[e|] fs] eqn:Hf.
  - exists w. repeat split; done.
  - destruct Hok. by exists e, fs.
  - exists (with_faults fs w). by rewrite ?Hf.
Qed.

Lemma resolution_ext (w w' : World) (k : string) :
  getUserById w' = getUserById w → resolution w' k = resolution w k.
Proof. intros H. unfold resolution. by rewrite H. Qed.

Lemma inherits_ext (w w' : World) (k : string) :
  getUserById w' = getUserById w → inherits w' k = inherits w k.
Proof. intros H. unfold inherits. by rewrite (resolution_ext w w' k H). Qed.

Lemma item_of_ext (w w' : World) (r : Row.t) :
  getUserById w' = getUserById w → item_of w' r = item_of w r.
Proof. intros H. unfold item_of, resolved_email. by rewrite (resolution_ext w w' _ H). Qed.

(** Every way through [GET /api/data]. *)
Lemma get_data_cases (w : World) :
  let rows := merge_sort Supabase.row_le (map_to_list (bookings w)).*2 in
  ∃ w', bookings w' = bookings w ∧
    (((∃ e fs, faults w = Some e :: fs) ∧
      get_data w = (Returned (json 500 (ErrorBody "Failed to load data")), w')) ∨
     ((¬ ∃ e fs, faults w = Some e :: fs) ∧
      Exists (λ r, inherits w (Row.user_id r) = true) rows ∧
      get_data w = (Returned (json 500 (ErrorBody "Failed to load data")), w')) ∨
     ((¬ ∃ e fs, faults w = Some e :: fs) ∧
      Forall (λ r, inherits w (Row.user_id r) = false) rows ∧
      get_data w
      = (Returned {| status := 200; headers := [("Cache-Control", "no-cache")];
                     payload := Listing (item_of w <$> rows) |}, w'))).
Proof.
  intros rows.
  destruct (faults w) as [|[e0|] fs0] eqn:Hf.
  2:{ exists (with_faults fs0 w). split; [done|]. left. split; [by exists e0, fs0|].
      unfold get_data, try_catch.
      pose proof (select_order_date_cases w) as Hsel. rewrite Hf in Hsel.
      by rewrite (bind_run _ _ _ _ _ Hsel). }
  all: assert (Hok : ¬ ∃ e fs, faults w = Some e :: fs)
         by (rewrite Hf; by intros (e & fs & ?)).
  all: rewrite <- Hf; clear Hf.
  all: destruct (not_next_fails_rows w Hok) as (w' & Hb & Hg & _ & Hsel).
  all: exists w'; (split; [done|]); right.
  all: unfold get_data, try_catch; rewrite (bind_run _ _ _ _ _ Hsel); simpl; fold rows.
  all: destruct (fetched_emails (userIds rows) w') as (m & Hrun & Hm).
  all: rewrite (bind_run _ _ _ _ _ Hrun).
  all: assert (Hm' : ∀ k, k ∈ userIds rows →
         email_of m k = if inherits w k then Member else Email (resolved_email w k))
         by (intros k Hk; rewrite (Hm k Hk), (inherits_ext w w' k Hg);
             unfold resolved_email; by rewrite (resolution_ext w w' k Hg)).
  all: destruct (transformedData_fetched w rows m Hm') as [Hgood Hbad].
  all: destruct (decide (Forall (λ r, inherits w (Row.user_id r) = false) rows)) as [Hall|Hnot].
  all: try (right; split; [done|]; split; [done|];
            rewrite (bind_run _ _ w' w' (item_of w <$> rows))
              by (unfold lift; by rewrite (Hgood Hall)); done).
  all: left; split; [done|].
  all: assert (Hex : Exists (λ r, inherits w (Row.user_id r) = true) rows)
         by (apply not_Forall_Exists in Hnot; [|apply _];
             eapply Exists_impl; [exact Hnot|];
             intros r Hr; simpl in Hr; by destruct (inherits w (Row.user_id r))).
  all: split; [done|].
  all: destruct (Hbad Hex) as [e He].
  all: rewrite (bind_raise _ _ w' w' e) by (unfold lift; by rewrite He); done.
Qed.

Lemma owners_readable_rows (w : World) :
  owners_readable w →
  Forall (λ r, inherits w (Row.user_id r) = false)
    (merge_sort Supabase.row_le (map_to_list (bookings w)).*2).
Proof.
  intros Hown. apply Forall_forall. intros r Hr.
  rewrite merge_sort_Permutation in Hr.
  apply list_elem_of_fmap in Hr as ([k r'] & -> & Hkr).
  apply elem_of_map_to_list in Hkr. by apply (Hown k).
Qed.

(** [GET /api/data] on a store that answers, with readable owners: the
    rows in the order of the store, each as its item. *)
Lemma get_data_healthy (w : World) :
  healthy w → owners_readable w →
  ∃ w', bookings w' = bookings w ∧
        get_data w
        = (Returned {| status := 200; headers := [("Cache-Control", "no-cache")];
                       payload := Listing (item_of w <$>
                         merge_sort Supabase.row_le (map_to_list (bookings w)).*2) |}, w').
Proof.
  intros Hw Hown.
  assert (Hok : ¬ ∃ e fs, faults w = Some e :: fs).
  { intros (e & fs & Hf). unfold healthy in Hw. rewrite Hf in Hw.
    by apply Forall_cons_1 in Hw as [? _]. }
  pose proof (owners_readable_rows w Hown) as Hall.
  destruct (get_data_cases w) as (w' & Hb & [[Hf _]|[(_ & Hex & _)|(_ & _ & Hget)]]).
  - done.
  - apply Exists_exists in Hex as (r & Hr & Hinh).
    rewrite (proj1 (Forall_forall _ _) Hall r Hr) in Hinh. done.
  - by exists w'.
Qed.

Lemma row_of_item_of (w : World) (r : Row.t) : row_of_item (item_of w r) = r.
Proof. by destruct r. Qed.

Lemma rows_of_items (w : World) (rows : list Row.t) :
  row_of_item <$> (item_of w <$> rows) = rows.
Proof.
  rewrite <- list_fmap_compose. rewrite <- (list_fmap_id rows) at 2.
  apply list_fmap_ext. intros i r _. apply row_of_item_of.
Qed.

Lemma items_ascending (w : World) (rows : list Row.t) :
  StronglySorted Supabase.row_le rows → ascending (item_of w <$> rows).
Proof.
  unfold ascending. intros Hsorted.
  induction Hsorted as [|r rows Hrows IH Hall]; simpl; constructor.
  - exact IH.
  - apply Forall_fmap. eapply Forall_impl; [exact Hall|]. done.
Qed.

(** C7: [GET /api/data] reads nothing of the request, so it needs no
    [Authorization] header.  On a store that answers, with readable owners,
    it answers 200 with the rows the store returned for [order('date')], all
    of the table and in that order, which is ascending in the date; and it
    changes no row. *)
Theorem get_is_open_and_ascending (w : World) (req : Request) :
  healthy w → owners_readable w →
  ∃ items rows,
    (Supabase.select_order_date w).1 = Returned (succeeded (Some rows)) ∧
    rows ≡ₚ (map_to_list (bookings w)).*2 ∧
    (Updated.app GET_api_data req w).1
    = Returned {| status := 200; headers := [("Cache-Control", "no-cache")];
                  payload := Listing items |} ∧
    row_of_item <$> items = rows ∧
    ascending items ∧
    Updated.app GET_api_data req w = Updated.app GET_api_data (anonymous JUndefined) w ∧
    bookings (Updated.app GET_api_data req w).2 = bookings w.
Proof.
  intros Hw Hown. simpl.
  destruct (get_data_healthy w Hw Hown) as (w' & Hb & ->).
  eexists _, _. rewrite (select_order_date_healthy w Hw).
  split; [reflexivity|]. split; [apply merge_sort_Permutation|].
  split; [reflexivity|]. split; [apply rows_of_items|]. split; [|done].
  apply items_ascending, StronglySorted_merge_sort; apply _.
Qed.

Lemma shared_table_readable : owners_readable (world_of shared_table).
Proof.
  intros k r Hkr. unfold shared_table in Hkr. simpl in Hkr.
  destruct (decide (k = "7")) as [->|H7].
  - rewrite lookup_insert_eq in Hkr. by injection Hkr as <-.
  - rewrite lookup_insert_ne in Hkr by done.
    destruct (decide (k = "9")) as [->|H9].
    + rewrite lookup_singleton_eq in Hkr. by injection Hkr as <-.
    + by rewrite lookup_singleton_ne in Hkr.
Qed.


Lemma get_is_open_and_ascending_witness :
  ∃ items rows,
    (Supabase.select_order_date (world_of shared_table)).1 = Returned (succeeded (Some rows)) ∧
    rows ≡ₚ (map_to_list (bookings (world_of shared_table))).*2 ∧
    (Updated.app GET_api_data (bearer "stale-token" JNull) (world_of shared_table)).1
    = Returned {| status := 200; headers := [("Cache-Control", "no-cache")];
                  payload := Listing items |} ∧
    row_of_item <$> items = rows ∧
    ascending items ∧
    Updated.app GET_api_data (bearer "stale-token" JNull) (world_of shared_table)
    = Updated.app GET_api_data (anonymous JUndefined) (world_of shared_table) ∧
    bookings (Updated.app GET_api_data (bearer "stale-token" JNull) (world_of shared_table)).2
    = bookings (world_of shared_table).
Proof.
  exact (get_is_open_and_ascending (world_of shared_table) (bearer "stale-token" JNull)
           (healthy_world_of shared_table) shared_table_readable).
Defined.

(** The listing of the shared table: Bob's earlier booking comes first. *)
Example get_shared_table :
  (Updated.app GET_api_data (anonymous JUndefined) (world_of shared_table)).1
  = Returned {| status := 200; headers := [("Cache-Control", "no-cache")];
                payload := Listing
                  [ Item.mk (JNum 9) (JStr "Retro") (JStr "2024-01-03") (JStr "16:00")
                      (JStr "17:00") "bob-id" "bob@example.org" "bob";
                    Item.mk (JNum 7) (JStr "Standup") (JStr "2024-01-05") (JStr "09:00")
                      (JStr "09:15") "alice-id" "alice@example.org" "alice" ] |}.
Proof. vm_compute. reflexivity. Qed.

(** A stored owner named [constructor] whom the provider does not know:
    [userEmails] reads as the inherited member, [split] is no function of
    it, and the listing is answered 500. *)
Example get_with_inherited_owner :
  inherits (world_of legacy_table) "constructor" = true ∧
  (Updated.app GET_api_data (anonymous JUndefined) (world_of legacy_table)).1
  = Returned (json 500 (ErrorBody "Failed to load data")).
Proof. by vm_compute. Qed.

(** ** The names in the listing *)

Lemma split_not_nil (sep : ascii) (s : string) : split sep s ≠ [].
Proof. unfold split. destruct s as [|c s]; [done|]. fold split. by repeat case_match. Qed.

Lemma local_part_cons (c : ascii) (s : string) :
  local_part (String c s) = if Ascii.eqb c "@" then "" else String c (local_part s).
Proof.
  unfold local_part, split. fold split. destruct (Ascii.eqb c "@"); [done|].
  pose proof (split_not_nil "@" s). by destruct (split "@" s).
Qed.

(** [local_part] is the text before the first [@]: it holds no [@], and the
    email is it alone or it followed by [@] and the rest. *)
Lemma local_part_spec (email : string) :
  ("@"%char ∉ list_ascii_of_string (local_part email)) ∧
  (email = local_part email ∨ ∃ rest, email = local_part email +:+ String "@" rest).
Proof.
  induction email as [|c s [IH1 IH2]].
  - split; [by apply not_elem_of_nil|by left].
  - rewrite local_part_cons. destruct (Ascii.eqb_spec c "@") as [->|Hne].
    + split; [by apply not_elem_of_nil|]. right. by exists s.
    + split.
      * simpl. rewrite elem_of_cons. intros [?|?]; [congruence|done].
      * destruct IH2 as [IH2|[rest IH2]].
        -- left. by rewrite <- IH2.
        -- right. exists rest.
           change (String c s = String c (local_part s +:+ String "@" rest)).
           by rewrite <- IH2.
Qed.

Lemma named_after_item_of (w : World) (r : Row.t) : named_after w (item_of w r).
Proof.
  unfold named_after, item_of, make_item, resolved_email. simpl.
  destruct (resolution w (Row.user_id r)) as [[email|]| |]; simpl; try done.
  destruct (String.eqb email ""); done.
Qed.

(** On a store that answers, with readable owners, the listing has one item
    per row of the table, and every item is named after what the lookup of
    its owner gave. *)
Lemma listing_named_after (w : World) :
  healthy w → owners_readable w →
  ∃ items,
    (get_data w).1 = Returned {| status := 200; headers := [("Cache-Control", "no-cache")];
                                 payload := Listing items |} ∧
    row_of_item <$> items ≡ₚ (map_to_list (bookings w)).*2 ∧
    Forall (named_after w) items.
Proof.
  intros Hw Hown. destruct (get_data_healthy w Hw Hown) as (w' & _ & ->).
  eexists. split; [reflexivity|]. split.
  - rewrite rows_of_items. apply merge_sort_Permutation.
  - apply Forall_fmap, Forall_forall. intros r _. apply named_after_item_of.
Qed.

(** C6: while the admin lookup throws, the listing names the owner of
    Alice's booking [Unknown User], not [Unknown] as the claim has it; the
    [catch] stores the sentinel as if it were an email. *)
Theorem raised_lookup_is_named_Unknown_User :
  let w := world_during_outage alices_table in
  resolution w "alice-id" = LookupRaised ∧
  (Updated.app GET_api_data (anonymous JUndefined) w).1
  = Returned {| status := 200; headers := [("Cache-Control", "no-cache")];
                payload := Listing
                  [ Item.mk (JNum 7) (JStr "Standup") (JStr "2024-01-05") (JStr "09:00")
                      (JStr "09:15") "alice-id" "Unknown User" "Unknown User" ] |}.
Proof. vm_compute. done. Qed.

(** ** Validating a batch *)

Lemma get_prop_readable (event : JsValue) (k : string) :
  readable event → get_prop event k = Returned (field event k).
Proof. intros [? ?]. unfold field. by destruct event. Qed.

Lemma valid_event_readable (event : JsValue) (b : bool) :
  valid_event event = Returned b → readable event.
Proof. by destruct event. Qed.

Lemma isValid_true (events : list JsValue) :
  isValid events = Returned true ↔ Forall (λ e, valid_event e = Returned true) events.
Proof.
  unfold isValid. induction events as [|e events IH]; simpl.
  - split; [constructor|done].
  - rewrite Forall_cons. destruct (valid_event e) as [[|]|err]; simpl.
    + rewrite IH. naive_solver.
    + split; [done|]. by intros [? _].
    + split; [done|]. by intros [? _].
Qed.

Lemma isValid_exists_invalid (events : list JsValue) :
  Exists (λ e, valid_event e ≠ Returned true) events → isValid events ≠ Returned true.
Proof.
  intros Hex Hok. apply isValid_true in Hok.
  apply Exists_exists in Hex as (e & He & Hbad).
  by apply (proj1 (Forall_forall _ _) Hok) in He.
Qed.

(** What [save] does with a body it rejects: nothing is written. *)
Lemma save_rejects (user : option User.t) (req : Request) (w : World) :
  match body req with
  | JArr events =>
      match isValid events with
      | Returned true => True
      | Returned false => save user req w = (Returned (json 400 InvalidStructure), w)
      | Raised e => save user req w = (Raised e, w)
      end
  | _ => save user req w = (Returned (json 400 (ErrorBody "Data must be an array")), w)
  end.
Proof.
  unfold save. destruct (body req); try done.
  unfold bind, lift. by destruct (isValid elems) as [[|]|e].
Qed.

(** An authenticated [POST] of a body that is no array, or of an array
    holding an element the validation does not accept, writes nothing.  It
    is answered 500 [Failed to save data] exactly when evaluating the
    validation throws, and 400 otherwise: [Data must be an array] for a body
    that is no array, the description of the expected shape for an array. *)
Lemma post_rejects_batch (w : World) (req : Request) (user : User.t) :
  authenticated w req user →
  (∀ events, body req = JArr events → Exists (λ e, valid_event e ≠ Returned true) events) →
  let run := Updated.app POST_api_data req w in
  run.2 = w ∧
  (((∃ events e, body req = JArr events ∧ isValid events = Raised e) ∧
    run.1 = Returned (json 500 (ErrorBody "Failed to save data"))) ∨
   ((∃ events, body req = JArr events ∧ isValid events = Returned false) ∧
    run.1 = Returned (json 400 InvalidStructure)) ∨
   ((∀ events, body req ≠ JArr events) ∧
    run.1 = Returned (json 400 (ErrorBody "Data must be an array")))).
Proof.
  intros Hauth Hbad. simpl. unfold Updated.post_data.
  rewrite (authenticate_resolved _ _ _ _ Hauth). unfold try_catch.
  pose proof (save_rejects (Some user) req w) as Hsave.
  destruct (body req) as [| | | | |events|] eqn:Hbody;
    try (rewrite Hsave; split; [done|right; right; by split]).
  specialize (Hbad events eq_refl). apply isValid_exists_invalid in Hbad.
  destruct (isValid events) as [[|]|e] eqn:Hv; [done| |]; rewrite Hsave.
  - split; [done|]. right. left. split; [by exists events|done].
  - split; [done|]. left. split; [by exists events, e|done].
Qed.

(** C4: Alice posts an array whose first element is [null] and whose second
    has no title.  The claim promises 400; reading [title] of [null] throws,
    and the answer is the 500 of the handler's [catch].  Nothing is
    written. *)
Theorem null_element_answers_500 :
  let w := world_of alices_table in
  let req := bearer "alice-token" (JArr [JNull; JObj []]) in
  let run := Updated.app POST_api_data req w in
  get_prop (JObj []) "title" = Returned JUndefined ∧
  valid_event (JObj []) = Returned false ∧
  run.1 = Returned (json 500 (ErrorBody "Failed to save data")) ∧
  bookings run.2 = bookings w.
Proof. vm_compute. done. Qed.

(** ** Building and storing the rows *)

Lemma with_reads_same (w : World) : with_reads (reads w) w = w.
Proof. by destruct w. Qed.

Lemma prepare_run (user : User.t) (event : JsValue) (w : World) :
  readable event →
  prepare (Some user) event w
  = (Returned (row_of user (now w (reads w)) event),
     with_reads (if needs_id event then S (reads w) else reads w) w).
Proof.
  intros Hr. unfold prepare, bind, lift, row_of, needs_id, falsy.
  rewrite !(get_prop_readable _ _ Hr).
  destruct (truthy (field event "id")); simpl; [|done].
  unfold ret. by rewrite with_reads_same.
Qed.

Lemma fresh_cons (event : JsValue) (events : list JsValue) :
  fresh (event :: events) = ((if needs_id event then 1 else 0) + fresh events)%nat.
Proof.
  unfold fresh. rewrite filter_cons.
  destruct (needs_id event); by case_decide.
Qed.

Lemma supabaseData_run (user : User.t) (events : list JsValue) (w : World) :
  Forall readable events →
  supabaseData (Some user) events w
  = (Returned (rows_of user (now w) (reads w) events),
     with_reads (reads w + fresh events) w).
Proof.
  unfold supabaseData. intros Hall. revert w.
  induction Hall as [|e events He Hall IH]; intros w; simpl.
  - unfold ret, fresh. simpl. by rewrite Nat.add_0_r, with_reads_same.
  - rewrite (bind_run _ _ _ _ _ (prepare_run user e w He)).
    rewrite (bind_run _ _ _ _ _ (IH _)). unfold ret. rewrite fresh_cons. simpl.
    unfold with_reads. simpl.
    replace ((if needs_id e then S (reads w) else reads w) + fresh events)%nat
      with (reads w + ((if needs_id e then 1 else 0) + fresh events))%nat
      by (destruct (needs_id e); simpl; lia).
    done.
Qed.



Lemma upsert_rows_other (tbl : gmap string Row.t) (keyed : list (string * Row.t)) (k : string) :
  k ∉ keyed.*1 → Supabase.upsert_rows tbl keyed !! k = tbl !! k.
Proof.
  unfold Supabase.upsert_rows. revert tbl.
  induction keyed as [|[k0 r0] keyed IH]; intros tbl Hk; simpl; [done|].
  simpl in Hk. apply not_elem_of_cons in Hk as [Hne Hk].
  rewrite IH by done. by rewrite lookup_insert_ne.
Qed.

Lemma upsert_rows_lookup (tbl : gmap string Row.t) (keyed : list (string * Row.t))
    (k : string) (r : Row.t) :
  NoDup keyed.*1 → (k, r) ∈ keyed → Supabase.upsert_rows tbl keyed !! k = Some r.
Proof.
  revert tbl. induction keyed as [|[k0 r0] keyed IH]; intros tbl Hnd Hin.
  - by apply elem_of_nil in Hin.
  - simpl in Hnd. apply NoDup_cons in Hnd as [Hk0 Hnd].
    apply elem_of_cons in Hin as [Heq|Hin].
    + injection Heq as -> ->.
      change (Supabase.upsert_rows (<[k0:=r0]> tbl) keyed !! k0 = Some r0).
      rewrite upsert_rows_other by done. apply lookup_insert_eq.
    + change (Supabase.upsert_rows (<[k0:=r0]> tbl) keyed !! k = Some r). by apply IH.
Qed.

Lemma upsert_healthy (rows : list Row.t) (w : World) :
  healthy w →
  let w1 := with_faults (tail (faults w)) w in
  match Supabase.keyed_rows rows with
  | Some keyed =>
      if decide (NoDup keyed.*1)
      then Supabase.upsert rows w
           = (Returned (succeeded None),
              with_bookings (Supabase.upsert_rows (bookings w) keyed) w1)
      else ∃ e, Supabase.upsert rows w = (Returned (failed e), w1)
  | None => ∃ e, Supabase.upsert rows w = (Returned (failed e), w1)
  end.
Proof.
  intros Hw. simpl. unfold Supabase.upsert.
  rewrite (bind_run _ _ _ _ _ (next_fault_healthy w Hw)).
  destruct (Supabase.keyed_rows rows) as [keyed|]; [|by eexists].
  destruct (decide (NoDup keyed.*1)); [done|by eexists].
Qed.

Lemma keyed_rows_elem (rows : list Row.t) (keyed : list (string * Row.t)) (r : Row.t) :
  Supabase.keyed_rows rows = Some keyed → r ∈ rows →
  ∃ k, Supabase.key_of (Row.id r) = Some k ∧ (k, r) ∈ keyed.
Proof.
  unfold Supabase.keyed_rows. intros Hk Hr. apply mapM_Some in Hk.
  induction Hk as [|r0 [k0 r0'] rows keyed Hhd Htl IH].
  - by apply elem_of_nil in Hr.
  - apply elem_of_cons in Hr as [->|Hr].
    + destruct (Supabase.key_of (Row.id r0)) as [k'|]; simplify_eq/=.
      exists k0. split; [done|]. apply elem_of_cons. by left.
    + destruct (IH Hr) as (k & Hkey & Hin). exists k. split; [done|].
      apply elem_of_cons. by right.
Qed.

(** ** Posting a batch *)

Lemma updated_post_resolved (w : World) (req : Request) (user : User.t) :
  authenticated w req user → Updated.app POST_api_data req w = save_or_500 user req w.
Proof. intros Hauth. simpl. unfold Updated.post_data. by rewrite (authenticate_resolved _ _ _ _ Hauth). Qed.

Lemma early_post_resolved (w : World) (req : Request) (user : User.t) :
  authenticated w req user → Early.app POST_api_data req w = save_or_500 user req w.
Proof.
  intros (h & Hh & Hne & Hu). simpl. unfold Early.post_data, save_or_500, try_catch.
  rewrite Hh. destruct h as [|c h]; [done|].
  unfold bind, Supabase.auth_getUser. rewrite Hu. done.
Qed.

(** A valid batch on a healthy store: saved when the store takes its keys,
    answered 500 otherwise. *)
Lemma save_or_500_valid (w : World) (req : Request) (user : User.t) (events : list JsValue) :
  healthy w → body req = JArr events → isValid events = Returned true →
  let w1 := with_faults (tail (faults w)) (with_reads (reads w + fresh events) w) in
  match Supabase.keyed_rows (rows_of user (now w) (reads w) events) with
  | Some keyed =>
      if decide (NoDup keyed.*1)
      then save_or_500 user req w
           = (Returned (json 200 (Saved (length events))), after_upsert events keyed w)
      else save_or_500 user req w
           = (Returned (json 500 (ErrorBody "Failed to save data")), w1)
  | None => save_or_500 user req w
            = (Returned (json 500 (ErrorBody "Failed to save data")), w1)
  end.
Proof.
  intros Hw Hbody Hvalid. simpl.
  assert (Hread : Forall readable events).
  { apply isValid_true in Hvalid. eapply Forall_impl; [exact Hvalid|].
    intros e He. by apply valid_event_readable in He. }
  set (w0 := with_reads (reads w + fresh events) w).
  assert (Hw0 : healthy w0) by done.
  pose proof (upsert_healthy (rows_of user (now w) (reads w) events) w0 Hw0) as Hup.
  simpl in Hup.
  assert (Hsave : save_or_500 user req w
            = match Supabase.upsert (rows_of user (now w) (reads w) events) w0 with
              | (Returned r, w') =>
                  match error r with
                  | Some e => (Returned (json 500 (ErrorBody "Failed to save data")), w')
                  | None => (Returned (json 200 (Saved (length events))), w')
                  end
              | (Raised e, w') => (Returned (json 500 (ErrorBody "Failed to save data")), w')
              end).
  { unfold save_or_500, save, try_catch. rewrite Hbody.
    unfold bind at 1. unfold lift. rewrite Hvalid.
    rewrite (bind_run _ _ _ _ _ (supabaseData_run user events w Hread)).
    unfold bind. fold w0.
    destruct (Supabase.upsert _ w0) as [[[d [e|]]|e] w']; done. }
  rewrite Hsave. clear Hsave.
  destruct (Supabase.keyed_rows _) as [keyed|].
  - destruct (decide (NoDup keyed.*1)).
    + by rewrite Hup.
    + destruct Hup as [e Hup]. by rewrite Hup.
  - destruct Hup as [e Hup]. by rewrite Hup.
Qed.

(** What a 200 of the handler tells. *)
Lemma save_or_500_accepted (w : World) (req : Request) (user : User.t)
    (events : list JsValue) (n : nat) :
  healthy w → body req = JArr events →
  (save_or_500 user req w).1 = Returned (json 200 (Saved n)) →
  isValid events = Returned true ∧
  ∃ keyed, Supabase.keyed_rows (rows_of user (now w) (reads w) events) = Some keyed ∧
           NoDup keyed.*1 ∧
           (save_or_500 user req w).2 = after_upsert events keyed w.
Proof.
  intros Hw Hbody Hok.
  destruct (isValid events) as [[|]|e] eqn:Hvalid.
  - split; [done|].
    pose proof (save_or_500_valid w req user events Hw Hbody Hvalid) as Hsave.
    destruct (Supabase.keyed_rows _) as [keyed|].
    + destruct (decide (NoDup keyed.*1)).
      * exists keyed. by rewrite Hsave.
      * rewrite Hsave in Hok. done.
    + rewrite Hsave in Hok. done.
  - pose proof (save_rejects (Some user) req w) as Hsave.
    rewrite Hbody, Hvalid in Hsave. unfold save_or_500, try_catch in Hok.
    rewrite Hsave in Hok. done.
  - pose proof (save_rejects (Some user) req w) as Hsave.
    rewrite Hbody, Hvalid in Hsave. unfold save_or_500, try_catch in Hok.
    rewrite Hsave in Hok. done.
Qed.

Lemma healthy_after_upsert (events : list JsValue) (keyed : list (string * Row.t)) (w : World) :
  healthy w → healthy (after_upsert events keyed w).
Proof. intros Hw. unfold after_upsert. apply healthy_with_bookings. by apply (healthy_tail (with_reads _ w)). Qed.

(** Every row of an accepted batch is in the table, under its key. *)
Lemma accepted_rows_stored (events : list JsValue) (keyed : list (string * Row.t))
    (rows : list Row.t) (w : World) (r : Row.t) :
  Supabase.keyed_rows rows = Some keyed → NoDup keyed.*1 → r ∈ rows →
  ∃ k, Supabase.key_of (Row.id r) = Some k ∧ bookings (after_upsert events keyed w) !! k = Some r.
Proof.
  intros Hk Hnd Hr. destruct (keyed_rows_elem rows keyed r Hk Hr) as (k & Hkey & Hin).
  exists k. split; [done|]. simpl. by apply upsert_rows_lookup.
Qed.







(** The same happens to two events without identifier that are stamped in
    the same millisecond. *)
Example same_millisecond_ids_collide :
  let w := world_of ∅ in
  let post := bearer "alice-token" (JArr [forged; forged]) in
  (Updated.app POST_api_data post w).1 = Returned (json 500 (ErrorBody "Failed to save data")) ∧
  bookings (Updated.app POST_api_data post w).2 = ∅.
Proof. by vm_compute. Qed.

(** ** Identifiers *)















(** ** Dates and times that denote nothing *)

(** C10: the validation only counts digits.  Alice posts an event dated
    [2024-13-40] from [99:99] to [99:99]; both variants validate it, answer
    success and store the row. *)
Theorem impossible_date_is_accepted :
  let w := world_of ∅ in
  let req := bearer "alice-token" (JArr [impossible]) in
  let row := Row.mk (JNum 1700000000000) (JStr "Standup") (JStr "2024-13-40")
               (JStr "99:99") (JStr "99:99") "alice-id" in
  isValid [impossible] = Returned true ∧
  (Updated.app POST_api_data req w).1 = Returned (json 200 (Saved 1)) ∧
  bookings (Updated.app POST_api_data req w).2 = {[ "1700000000000" := row ]} ∧
  (Early.app POST_api_data req w).1 = Returned (json 200 (Saved 1)) ∧
  bookings (Early.app POST_api_data req w).2 = {[ "1700000000000" := row ]}.
Proof. vm_compute. done. Qed.

(** ** Instances on the small deployment *)

Lemma updated_rejects_unresolved_witness :
  ∃ msg,
    Updated.app (DELETE_api_data "7") (bearer "stale-token" JUndefined) (world_of alices_table)
    = (Returned (json 401 (ErrorBody msg)), world_of alices_table).
Proof.
  apply (updated_rejects_unresolved (world_of alices_table) (bearer "stale-token" JUndefined)
           (DELETE_api_data "7")).
  - eexists. split; [reflexivity|]. left. simpl. discriminate.
  - right. by exists "7".
Defined.

Lemma listing_named_after_witness :
  ∃ items,
    (get_data (world_of shared_table)).1
    = Returned {| status := 200; headers := [("Cache-Control", "no-cache")];
                  payload := Listing items |} ∧
    row_of_item <$> items ≡ₚ (map_to_list (bookings (world_of shared_table))).*2 ∧
    Forall (named_after (world_of shared_table)) items.
Proof.
  exact (listing_named_after (world_of shared_table) (healthy_world_of shared_table)
           shared_table_readable).
Defined.

Lemma post_rejects_batch_witness :
  let w := world_of alices_table in
  let req := bearer "alice-token" (JArr [JObj []; JNull]) in
  let run := Updated.app POST_api_data req w in
  run.2 = w ∧
  (((∃ events e, body req = JArr events ∧ isValid events = Raised e) ∧
    run.1 = Returned (json 500 (ErrorBody "Failed to save data"))) ∨
   ((∃ events, body req = JArr events ∧ isValid events = Returned false) ∧
    run.1 = Returned (json 400 InvalidStructure)) ∨
   ((∀ events, body req ≠ JArr events) ∧
    run.1 = Returned (json 400 (ErrorBody "Data must be an array")))).
Proof.
  apply (post_rejects_batch (world_of alices_table)
           (bearer "alice-token" (JArr [JObj []; JNull])) alice).
  - apply alice_authenticated.
  - intros events Hevents. injection Hevents as <-. apply Exists_cons_hd. discriminate.
Defined.

Lemma delete_missing_witness :
  let w := world_of alices_table in
  let run := Updated.app (DELETE_api_data "8") (bearer "bob-token" JUndefined) w in
  run.1 = Returned (json 500 (ErrorBody "Failed to delete event")) ∧
  bookings run.2 = bookings w.
Proof.
  apply (delete_missing (world_of alices_table) (bearer "bob-token" JUndefined) bob "8").
  - apply healthy_world_of.
  - apply bob_authenticated.
  - reflexivity.
Defined.

(** ** The order of the dates *)

Lemma matches_date_inv (s : string) :
  matches date_pattern s = true →
  ∃ y1 y2 y3 y4 m1 m2 d1 d2 : ascii,
    s = String y1 (String y2 (String y3 (String y4 (String "-" (String m1 (String m2
          (String "-" (String d1 (String d2 EmptyString))))))))) ∧
    Forall (λ c, is_digit c = true) [y1; y2; y3; y4; m1; m2; d1; d2].
Proof.
  intros H.
  change date_pattern
    with [Digit; Digit; Digit; Digit; Lit "-"; Digit; Digit; Lit "-"; Digit; Digit] in H.
  do 10 (destruct s as [|? s];
         [cbn [matches atom_matches] in H; by rewrite ?andb_false_r in H|]).
  destruct s; [|cbn [matches atom_matches] in H; by rewrite ?andb_false_r in H].
  cbn [matches atom_matches] in H. rewrite andb_true_r in H.
  do 9 (apply andb_prop in H as [? H]).
  repeat match goal with
         | Hc : Ascii.eqb _ _ = true |- _ => apply Ascii.eqb_eq in Hc; subst
         end.
  do 8 eexists. split; [reflexivity|]. repeat (constructor; [done|]). constructor.
Qed.

Lemma is_digit_bounds (c : ascii) :
  is_digit c = true → 48 ≤ Z.of_N (N_of_ascii c) ≤ 57.
Proof.
  unfold is_digit. intros H. apply andb_prop in H as [H1 H2].
  apply N.leb_le in H1, H2. lia.
Qed.

Lemma digit_step_digit (acc : Z) (c : ascii) :
  is_digit c = true → digit_step acc c = 10 * acc + (Z.of_N (N_of_ascii c) - 48).
Proof. intros H. unfold digit_step. by rewrite H. Qed.

Lemma digit_step_dash (acc : Z) : digit_step acc "-" = acc.
Proof. reflexivity. Qed.

(** On texts of the form [YYYY-MM-DD] the order of the [date] column is the
    order of the days they denote. *)
Lemma text_le_is_calendar_order (a b : string) :
  matches date_pattern a = true → matches date_pattern b = true →
  Supabase.text_le a b = true ↔ day_number a ≤ day_number b.
Proof.
  intros Ha Hb.
  destruct (matches_date_inv a Ha) as (a1 & a2 & a3 & a4 & a5 & a6 & a7 & a8 & -> & HA).
  destruct (matches_date_inv b Hb) as (b1 & b2 & b3 & b4 & b5 & b6 & b7 & b8 & -> & HB).
  repeat match goal with
         | H : Forall _ (_ :: _) |- _ => apply Forall_cons_1 in H as [? H]
         end.
  unfold day_number. cbn [list_ascii_of_string foldl].
  rewrite !digit_step_dash.
  repeat match goal with
         | H : is_digit ?c = true |- _ =>
             rewrite !(digit_step_digit _ c H); apply is_digit_bounds in H
         end.
  unfold Supabase.text_le. cbn [String_as_OT.compare]. unfold Ascii_as_OT.compare.
  replace (N_of_ascii "-") with 45%N by reflexivity.
  change (N_as_OT.compare 45 45) with (@Eq). cbv iota.
  repeat match goal with
         | |- context [N_as_OT.compare ?x ?y] =>
             change (N_as_OT.compare x y) with (N.compare x y);
             destruct (N.compare_spec x y)
         end; lia.
Qed.

(** In an ascending listing, a booking that comes later is not on an
    earlier day. *)
Lemma ascending_calendar (first later : Item.t) (items : list Item.t) (a b : string) :
  ascending (first :: items) → later ∈ items →
  Item.date first = JStr a → Item.date later = JStr b →
  matches date_pattern a = true → matches date_pattern b = true →
  day_number a ≤ day_number b.
Proof.
  unfold ascending. intros Hsorted Hlater Ha Hb Hma Hmb.
  apply StronglySorted_inv in Hsorted as [_ Hall].
  apply (proj1 (Forall_forall _ _) Hall) in Hlater.
  unfold Supabase.date_le, Supabase.date_key in Hlater. rewrite Ha, Hb in Hlater. simpl in Hlater.
  by apply text_le_is_calendar_order.
Qed.

(** * The rest of the handlers *)

(** ** [GET /api/data] on any store *)

(** The store answers the select and no stored owner reads as an inherited
    member: the two things that fail the listing. *)
Lemma table_rows_sorted (w : World) (r : Row.t) :
  r ∈ merge_sort Supabase.row_le (map_to_list (bookings w)).*2 ↔
  ∃ k, bookings w !! k = Some r.
Proof.
  rewrite merge_sort_Permutation, list_elem_of_fmap. split.
  - intros ([k r'] & -> & Hkr). exists k. by apply elem_of_map_to_list.
  - intros (k & Hk). exists (k, r). split; [done|]. by apply elem_of_map_to_list.
Qed.

(** [GET /api/data] answers every request and never changes the table, in
    both variants.  It answers 500 [Failed to load data] exactly when the
    store answers the select with an error or a stored owner reads from
    [userEmails] as a member inherited from [Object.prototype]; otherwise it
    answers 200 with one item per row of the table, whatever else the admin
    lookups do. *)
Theorem get_answers_200_or_500 (updated : bool) (req : Request) (w : World) :
  let run := (if updated then Updated.app else Early.app) GET_api_data req w in
  let fails :=
    next_fails w ∨ ∃ k r, bookings w !! k = Some r ∧ inherits w (Row.user_id r) = true in
  bookings run.2 = bookings w ∧
  ((fails ∧ run.1 = Returned (json 500 (ErrorBody "Failed to load data"))) ∨
   (¬ fails ∧
    ∃ items, run.1 = Returned {| status := 200; headers := [("Cache-Control", "no-cache")];
                                 payload := Listing items |} ∧
             row_of_item <$> items ≡ₚ (map_to_list (bookings w)).*2)).
Proof.
  assert (Hget : (if updated then Updated.app else Early.app) GET_api_data req w
                 = get_data w) by by destruct updated.
  cbv zeta. rewrite Hget. clear Hget. unfold next_fails.
  destruct (get_data_cases w) as (w' & Hw' & [[Hf ->]|[(Hf & Hex & ->)|(Hf & Hall & ->)]]).
  - split; [done|]. left. split; [by left|done].
  - split; [done|]. left. split; [|done]. right.
    apply Exists_exists in Hex as (r & Hr & Hinh).
    apply table_rows_sorted in Hr as [k Hk]. by exists k, r.
  - split; [done|]. right. split.
    + intros [Hfails|(k & r & Hk & Hinh)]; [done|].
      assert (Hr : r ∈ merge_sort Supabase.row_le (map_to_list (bookings w)).*2)
        by (apply table_rows_sorted; by exists k).
      rewrite (proj1 (Forall_forall _ _) Hall r Hr) in Hinh. done.
    + eexists. split; [reflexivity|]. rewrite rows_of_items. apply merge_sort_Permutation.
Qed.

(** On a store that answers, with readable owners, the listing shows the
    table and nothing else: the columns of its items are the rows of the
    table, each once. *)
Theorem listing_shows_the_table (w : World) :
  healthy w → owners_readable w →
  ∃ items,
    (get_data w).1 = Returned {| status := 200; headers := [("Cache-Control", "no-cache")];
                                 payload := Listing items |} ∧
    row_of_item <$> items ≡ₚ (map_to_list (bookings w)).*2 ∧
    length items = size (bookings w).
Proof.
  intros Hw Hown. destruct (get_data_healthy w Hw Hown) as (w' & _ & ->).
  eexists. split; [reflexivity|]. split.
  - rewrite rows_of_items. apply merge_sort_Permutation.
  - rewrite length_fmap, merge_sort_Permutation, length_fmap.
    apply length_map_to_list.
Qed.

Lemma listing_shows_the_table_witness :
  ∃ items,
    (get_data (world_of shared_table)).1
    = Returned {| status := 200; headers := [("Cache-Control", "no-cache")];
                  payload := Listing items |} ∧
    row_of_item <$> items ≡ₚ (map_to_list (bookings (world_of shared_table))).*2 ∧
    length items = size (bookings (world_of shared_table)).
Proof.
  exact (listing_shows_the_table (world_of shared_table) (healthy_world_of shared_table)
           shared_table_readable).
Defined.

(** When every stored date has the form [YYYY-MM-DD], the listing of a
    store that answers, with readable owners, holds every row of the table
    in the order of the days: no item is on an earlier day than one before
    it. *)
Theorem listing_in_order_of_days (w : World) :
  healthy w → owners_readable w →
  (∀ k r, bookings w !! k = Some r → well_dated (Row.date r)) →
  ∃ items,
    (get_data w).1 = Returned {| status := 200; headers := [("Cache-Control", "no-cache")];
                                 payload := Listing items |} ∧
    row_of_item <$> items ≡ₚ (map_to_list (bookings w)).*2 ∧
    StronglySorted (λ a b, day (Item.date a) ≤ day (Item.date b)) items.
Proof.
  intros Hw Hown Hdated. destruct (get_data_healthy w Hw Hown) as (w' & _ & ->).
  eexists. split; [reflexivity|].
  split; [rewrite rows_of_items; apply merge_sort_Permutation|].
  set (rows := merge_sort Supabase.row_le (map_to_list (bookings w)).*2).
  assert (Hall : Forall (λ r, well_dated (Row.date r)) rows).
  { apply Forall_forall. intros r Hr. apply table_rows_sorted in Hr as [k Hk].
    by apply (Hdated k). }
  assert (Hsorted : StronglySorted Supabase.row_le rows).
  { apply StronglySorted_merge_sort; apply _. }
  clearbody rows.
  induction Hsorted as [|r rows Hrows IH Hle]; simpl; constructor.
  - apply IH. by apply Forall_cons_1 in Hall as [_ ?].
  - apply Forall_cons_1 in Hall as [(a & Ha & Hma) Hall].
    apply Forall_fmap, Forall_forall. intros r' Hr'. simpl.
    destruct (proj1 (Forall_forall _ _) Hall r' Hr') as (b & Hb & Hmb).
    pose proof (proj1 (Forall_forall _ _) Hle r' Hr') as Hrr'.
    unfold Supabase.row_le, Supabase.date_le, Supabase.date_key in Hrr'.
    rewrite Ha, Hb in Hrr'. simpl in Hrr'. rewrite Ha, Hb. simpl.
    by apply text_le_is_calendar_order.
Qed.

Lemma listing_in_order_of_days_witness :
  ∃ items,
    (get_data (world_of shared_table)).1
    = Returned {| status := 200; headers := [("Cache-Control", "no-cache")];
                  payload := Listing items |} ∧
    row_of_item <$> items ≡ₚ (map_to_list (bookings (world_of shared_table))).*2 ∧
    StronglySorted (λ a b, day (Item.date a) ≤ day (Item.date b)) items.
Proof.
  apply (listing_in_order_of_days (world_of shared_table) (healthy_world_of shared_table)
           shared_table_readable).
  intros k r Hkr. unfold shared_table in Hkr. simpl in Hkr.
  destruct (decide (k = "7")) as [->|H7].
  - rewrite lookup_insert_eq in Hkr. injection Hkr as <-. by eexists.
  - rewrite lookup_insert_ne in Hkr by done.
    destruct (decide (k = "9")) as [->|H9].
    + rewrite lookup_singleton_eq in Hkr. injection Hkr as <-. by eexists.
    + by rewrite lookup_singleton_ne in Hkr.
Defined.

(** ** The middleware on any provider *)

(** When [getUser] throws, the updated [POST] and [DELETE] answer 500
    [Authentication failed] and the world is as before. *)
Theorem provider_failure_is_500 (w : World) (req : Request) (route : Route)
    (authHeader : string) (e : Error) :
  authorization req = Some authHeader → authHeader ≠ "" →
  getUser w (split " " authHeader !! 1%nat) = Raised e →
  route = POST_api_data ∨ (∃ id, route = DELETE_api_data id) →
  Updated.app route req w = (Returned (json 500 (ErrorBody "Authentication failed")), w).
Proof.
  intros Hh Hne Hu Hroute.
  assert (Hguard : ∀ next, Updated.authenticate req next w
                           = (Returned (json 500 (ErrorBody "Authentication failed")), w)).
  { intros next. unfold Updated.authenticate, bind, try_catch, Supabase.auth_getUser.
    rewrite Hh. destruct authHeader as [|c h]; [done|]. by rewrite Hu. }
  destruct Hroute as [->|[id ->]]; apply Hguard.
Qed.

Lemma provider_failure_is_500_witness :
  Updated.app (DELETE_api_data "7") (bearer "alice-token" JUndefined)
    (world_without_provider alices_table)
  = (Returned (json 500 (ErrorBody "Authentication failed")),
     world_without_provider alices_table).
Proof.
  apply (provider_failure_is_500 _ _ _ "Bearer alice-token" {| message := "fetch failed" |}).
  - reflexivity.
  - discriminate.
  - reflexivity.
  - right. by exists "7".
Defined.

(** The handlers read the second word of the [Authorization] header and
    nothing else of it: two headers with the same second word are answered
    alike, whatever their scheme and whatever follows the token. *)
Theorem only_the_second_word_counts (updated : bool) (route : Route) (h1 h2 : string)
    (b : JsValue) (w : World) :
  h1 ≠ "" → h2 ≠ "" → split " " h1 !! 1%nat = split " " h2 !! 1%nat →
  (if updated then Updated.app else Early.app) route (with_header h1 b) w
  = (if updated then Updated.app else Early.app) route (with_header h2 b) w.
Proof.
  intros H1 H2 Hsame.
  destruct h1 as [|c1 h1]; [done|]. destruct h2 as [|c2 h2]; [done|].
  destruct updated, route; try reflexivity.
  - simpl. unfold Updated.post_data, Updated.authenticate, with_header. simpl.
    by rewrite Hsame.
  - simpl. unfold Updated.delete_data, Updated.authenticate, with_header. simpl.
    by rewrite Hsame.
  - simpl. unfold Early.post_data, with_header. simpl. by rewrite Hsame.
Qed.

Lemma only_the_second_word_counts_witness :
  Updated.app (DELETE_api_data "7") (with_header "Basic alice-token and more" JUndefined)
    (world_of alices_table)
  = Updated.app (DELETE_api_data "7") (with_header "Bearer alice-token" JUndefined)
      (world_of alices_table).
Proof.
  apply (only_the_second_word_counts true (DELETE_api_data "7")
           "Basic alice-token and more" "Bearer alice-token" JUndefined (world_of alices_table)).
  - discriminate.
  - discriminate.
  - reflexivity.
Defined.

(** ** [DELETE] on any store *)

(** In both variants a [DELETE] of [id] leaves every other row as it was,
    whoever calls and whatever the store and the provider do. *)
Theorem delete_leaves_other_rows (updated : bool) (id k : string) (req : Request) (w : World) :
  k ≠ id →
  bookings ((if updated then Updated.app else Early.app) (DELETE_api_data id) req w).2 !! k
  = bookings w !! k.
Proof.
  intros Hk. destruct updated; unfold_handlers.
  - repeat (case_match; simplify_eq/=); rewrite ?lookup_delete_ne; done.
  - repeat (case_match; simplify_eq/=); rewrite ?lookup_delete_ne; done.
Qed.

Lemma delete_leaves_other_rows_witness :
  bookings (Updated.app (DELETE_api_data "7") (bearer "alice-token" JUndefined)
              (world_of shared_table)).2 !! "9"
  = bookings (world_of shared_table) !! "9".
Proof.
  apply (delete_leaves_other_rows true "7" "9" (bearer "alice-token" JUndefined)
           (world_of shared_table)).
  discriminate.
Defined.

Lemma updated_delete_owner_run (w : World) (req : Request) (user : User.t)
    (id : string) (row : Row.t) :
  healthy w → authenticated w req user → bookings w !! id = Some row →
  Row.user_id row = User.id user →
  ∃ w', Updated.delete_data id req w = (Returned (json 200 Success), w') ∧
        healthy w' ∧ bookings w' = delete id (bookings w) ∧ getUser w' = getUser w.
Proof.
  intros Hw Hauth Hrow Howner. unfold Updated.delete_data.
  rewrite (authenticate_resolved _ _ _ _ Hauth). unfold try_catch.
  rewrite (bind_run _ _ _ _ _ (select_single_found w id row Hw Hrow)). simpl.
  apply String.eqb_eq in Howner. rewrite Howner. simpl.
  rewrite (bind_run _ _ _ _ _ (delete_eq_healthy _ id (healthy_tail w Hw))). simpl.
  eexists. split; [reflexivity|]. split; [|done].
  apply healthy_with_bookings. apply (healthy_tail (with_faults _ w)). by apply healthy_tail.
Qed.

Lemma updated_delete_missing_run (w : World) (req : Request) (user : User.t) (id : string) :
  healthy w → authenticated w req user → bookings w !! id = None →
  ∃ w', Updated.delete_data id req w
        = (Returned (json 500 (ErrorBody "Failed to delete event")), w') ∧
        bookings w' = bookings w.
Proof.
  intros Hw Hauth Hrow. unfold Updated.delete_data.
  rewrite (authenticate_resolved _ _ _ _ Hauth). unfold try_catch.
  destruct (select_single_missing w id Hw Hrow) as [e He].
  rewrite (bind_run _ _ _ _ _ He). by eexists.
Qed.

(** Repeating a [DELETE] that succeeded: the owner's first call removes the
    row and answers success, the same call again answers 500 [Failed to
    delete event] and changes nothing. *)
Theorem delete_again_answers_500 (w : World) (req : Request) (user : User.t)
    (id : string) (row : Row.t) :
  healthy w → authenticated w req user → bookings w !! id = Some row →
  Row.user_id row = User.id user →
  let first := Updated.app (DELETE_api_data id) req w in
  let second := Updated.app (DELETE_api_data id) req first.2 in
  first.1 = Returned (json 200 Success) ∧
  second.1 = Returned (json 500 (ErrorBody "Failed to delete event")) ∧
  bookings second.2 = delete id (bookings w).
Proof.
  intros Hw Hauth Hrow Howner. cbv zeta.
  change (Updated.app (DELETE_api_data id) req) with (Updated.delete_data id req).
  destruct (updated_delete_owner_run w req user id row Hw Hauth Hrow Howner)
    as (w1 & -> & Hw1 & Hb1 & Hu1). simpl.
  assert (Hauth1 : authenticated w1 req user).
  { destruct Hauth as (h & ? & ? & ?). exists h. by rewrite Hu1. }
  assert (Hgone : bookings w1 !! id = None) by (rewrite Hb1; apply lookup_delete_eq).
  destruct (updated_delete_missing_run w1 req user id Hw1 Hauth1 Hgone) as (w2 & -> & Hb2).
  simpl. by rewrite Hb2.
Qed.

Lemma delete_again_answers_500_witness :
  let first := Updated.app (DELETE_api_data "7") (bearer "alice-token" JUndefined)
                 (world_of shared_table) in
  let second := Updated.app (DELETE_api_data "7") (bearer "alice-token" JUndefined) first.2 in
  first.1 = Returned (json 200 Success) ∧
  second.1 = Returned (json 500 (ErrorBody "Failed to delete event")) ∧
  bookings second.2 = delete "7" (bookings (world_of shared_table)).
Proof.
  apply (delete_again_answers_500 (world_of shared_table) (bearer "alice-token" JUndefined)
           alice "7" standup).
  - apply healthy_world_of.
  - apply alice_authenticated.
  - reflexivity.
  - reflexivity.
Defined.

(** ** [POST /api/data] on any store *)

Lemma prepare_keeps_table (user : option User.t) (event : JsValue) (w : World) :
  bookings (prepare user event w).2 = bookings w.
Proof.
  unfold prepare, bind, lift, ret, throw, Date_now.
  repeat (case_match; simplify_eq/=); done.
Qed.

Lemma supabaseData_keeps_table (user : option User.t) (events : list JsValue) (w : World) :
  bookings (supabaseData user events w).2 = bookings w.
Proof.
  unfold supabaseData. revert w. induction events as [|e events IH]; intros w; simpl; [done|].
  unfold bind at 1. pose proof (prepare_keeps_table user e w) as He.
  destruct (prepare user e w) as [[row|err] w1]; simpl in *; [|done].
  unfold bind. specialize (IH w1).
  destruct (traverse (prepare user) events w1) as [[rows|err] w2]; simpl in *; congruence.
Qed.

Lemma upsert_cases (rows : list Row.t) (w : World) :
  ∃ r w', Supabase.upsert rows w = (Returned r, w') ∧
          (error r ≠ None → bookings w' = bookings w).
Proof.
  unfold Supabase.upsert, Supabase.next_fault, bind, ret.
  destruct (faults w) as [|[e|] fs]; simpl;
    repeat (case_match; simplify_eq/=); eexists _, _; (split; [reflexivity|done]).
Qed.

(** [save] writes only when it answers 200. *)
Lemma save_cases (user : option User.t) (req : Request) (w : World) :
  ∃ o w', save user req w = (o, w') ∧
          (bookings w' = bookings w ∨ ∃ n, o = Returned (json 200 (Saved n))) ∧
          (∀ res, o = Returned res → status res = 200%nat ∨ status res = 400%nat).
Proof.
  unfold save. destruct (body req) as [| | | | |events|];
    try (eexists _, _; split; [reflexivity|]; split; [by left|]; intros res [= <-]; by right).
  destruct (isValid events) as [[|]|e] eqn:Hvalid.
  - rewrite (bind_run _ _ w w true) by reflexivity.
    pose proof (supabaseData_keeps_table user events w) as Hkeep.
    destruct (supabaseData user events w) as [[rows|e] w1] eqn:Hrows; simpl in Hkeep.
    + rewrite (bind_run _ _ _ _ _ Hrows).
      destruct (upsert_cases rows w1) as (r & w2 & Hup & Hr).
      rewrite (bind_run _ _ _ _ _ Hup).
      destruct (error r) as [e|] eqn:He.
      * eexists _, _. split; [reflexivity|]. split; [|done].
        left. rewrite Hr by done. done.
      * eexists _, _. split; [reflexivity|]. split; [right; by eexists|].
        intros res [= <-]. by left.
    + rewrite (bind_raise _ _ _ _ _ Hrows).
      eexists _, _. split; [reflexivity|]. split; [by left|done].
  - rewrite (bind_run _ _ w w false) by reflexivity.
    eexists _, _. split; [reflexivity|]. split; [by left|]. intros res [= <-]. by right.
  - rewrite (bind_raise _ _ w w e) by reflexivity.
    eexists _, _. split; [reflexivity|]. split; [by left|done].
Qed.

Lemma guarded_save_cases (user : option User.t) (req : Request) (w : World) :
  ∃ res w',
    try_catch (save user req) (λ err, ret (json 500 (ErrorBody "Failed to save data"))) w
    = (Returned res, w') ∧
    (bookings w' = bookings w ∨ status res = 200%nat) ∧
    status res ∈ [200; 400; 500]%nat.
Proof.
  destruct (save_cases user req w) as (o & w' & Hsave & Hwrite & Hstatus).
  unfold try_catch. rewrite Hsave. destruct o as [res|e].
  - exists res, w'. split; [done|]. split.
    + destruct Hwrite as [?|[n [= ->]]]; [by left|by right].
    + destruct (Hstatus res eq_refl) as [-> | ->]; set_solver.
  - eexists _, w'. split; [reflexivity|]. split.
    + destruct Hwrite as [?|[n ?]]; [by left|done].
    + simpl. set_solver.
Qed.

Lemma authenticate_cases (req : Request) (next : User.t → M Response) (w : World) :
  (∃ res, Updated.authenticate req next w = (Returned res, w) ∧ status res ∈ [401; 500]%nat) ∨
  (∃ user, Updated.authenticate req next w = next user w).
Proof.
  unfold Updated.authenticate, Supabase.auth_getUser, bind, try_catch.
  destruct (authorization req) as [[|c h]|];
    try (left; eexists; split; [reflexivity|simpl; set_solver]).
  destruct (getUser w _) as [[[u|] [e|]]|e];
    try (left; eexists; split; [reflexivity|simpl; set_solver]).
  right. by exists u.
Qed.

Lemma early_post_cases (req : Request) (w : World) :
  (∃ res, Early.post_data req w = (Returned res, w) ∧ status res ∈ [401; 500]%nat) ∨
  (∃ user, Early.post_data req w
           = try_catch (save user req)
               (λ err, ret (json 500 (ErrorBody "Failed to save data"))) w).
Proof.
  unfold Early.post_data, Supabase.auth_getUser, bind, try_catch.
  destruct (authorization req) as [[|c h]|];
    try (left; eexists; split; [reflexivity|simpl; set_solver]).
  destruct (getUser w _) as [[d [e|]]|e];
    try (left; eexists; split; [reflexivity|simpl; set_solver]).
  right. by exists d.
Qed.

(** Every request on [/api/data] is answered, in both variants, with one of
    the statuses 200, 400, 401, 403, 404 and 500, and an answer other than
    200 leaves the table as it was. *)
Theorem only_a_200_writes (updated : bool) (route : Route) (req : Request) (w : World) :
  let run := (if updated then Updated.app else Early.app) route req w in
  ∃ res, run.1 = Returned res ∧
         status res ∈ [200; 400; 401; 403; 404; 500]%nat ∧
         (status res = 200%nat ∨ bookings run.2 = bookings w).
Proof.
  cbv zeta. destruct route as [| | |id].
  - exists {| status := 200; headers := [("Cache-Control", "no-cache")]; payload := NoBody |}.
    destruct updated; (split; [done|]); (split; [set_solver|by left]).
  - assert (Hget : (if updated then Updated.app else Early.app) GET_api_data req w
                   = get_data w) by by destruct updated.
    rewrite Hget.
    destruct (get_data_cases w) as (w' & Hw' & [[_ ->]|[(_ & _ & ->)|(_ & _ & ->)]]).
    + eexists. split; [reflexivity|]. split; [simpl; set_solver|by right].
    + eexists. split; [reflexivity|]. split; [simpl; set_solver|by right].
    + eexists. split; [reflexivity|]. split; [simpl; set_solver|by left].
  - destruct updated; simpl.
    + unfold Updated.post_data.
      destruct (authenticate_cases req
                  (λ user, try_catch (save (Some user) req)
                             (λ err, ret (json 500 (ErrorBody "Failed to save data")))) w)
        as [(res & -> & Hstatus)|(u & ->)].
      * exists res. split; [done|]. split; [set_solver|by right].
      * destruct (guarded_save_cases (Some u) req w) as (res & w' & -> & Hwrite & Hstatus).
        exists res. split; [done|]. split; [set_solver|]. destruct Hwrite; [by right|by left].
    + destruct (early_post_cases req w) as [(res & -> & Hstatus)|(d & ->)].
      * exists res. split; [done|]. split; [set_solver|by right].
      * destruct (guarded_save_cases d req w) as (res & w' & -> & Hwrite & Hstatus).
        exists res. split; [done|]. split; [set_solver|]. destruct Hwrite; [by right|by left].
  - destruct updated; unfold_handlers;
      repeat (case_match; simplify_eq/=);
      (eexists; split; [reflexivity|]; split; [simpl; set_solver|]; (by left) || (by right)).
Qed.

(** ** What an accepted batch does to the table *)

Lemma post_resolved (updated : bool) (w : World) (req : Request) (user : User.t) :
  authenticated w req user →
  (if updated then Updated.app else Early.app) POST_api_data req w = save_or_500 user req w.
Proof.
  intros Hauth. destruct updated.
  - by apply updated_post_resolved.
  - by apply early_post_resolved.
Qed.

Lemma valid_events_readable (events : list JsValue) :
  isValid events = Returned true → Forall readable events.
Proof.
  intros Hvalid. apply isValid_true in Hvalid. eapply Forall_impl; [exact Hvalid|].
  intros e He. by apply valid_event_readable in He.
Qed.

(** A valid batch from a resolved caller, on a store that answers, is
    saved exactly when the store takes the rows built from it: every
    identifier a number or a text, no two rows under one key.  Otherwise the
    answer is 500 and no row is written. *)
Theorem valid_batch_is_saved_or_500 (updated : bool) (w : World) (req : Request)
    (user : User.t) (events : list JsValue) :
  healthy w → authenticated w req user → body req = JArr events →
  isValid events = Returned true →
  let run := (if updated then Updated.app else Early.app) POST_api_data req w in
  ∃ rows w1,
    supabaseData (Some user) events w = (Returned rows, w1) ∧
    (storable rows → run.1 = Returned (json 200 (Saved (length events)))) ∧
    (¬ storable rows →
       run.1 = Returned (json 500 (ErrorBody "Failed to save data")) ∧
       bookings run.2 = bookings w).
Proof.
  intros Hw Hauth Hbody Hvalid. cbv zeta. rewrite (post_resolved updated w req user Hauth).
  exists (rows_of user (now w) (reads w) events), (with_reads (reads w + fresh events) w).
  split; [by apply supabaseData_run, valid_events_readable|].
  pose proof (save_or_500_valid w req user events Hw Hbody Hvalid) as Hsave. simpl in Hsave.
  unfold storable. destruct (Supabase.keyed_rows _) as [keyed|].
  - destruct (decide (NoDup keyed.*1)) as [Hnd|Hnd]; rewrite Hsave.
    + split; [done|]. intros Hno. destruct Hno. by exists keyed.
    + split; [|done]. intros (keyed' & [= <-] & ?). done.
  - rewrite Hsave. split; [|done]. by intros (keyed' & ? & ?).
Qed.

Lemma valid_batch_is_saved_or_500_witness :
  let run := Updated.app POST_api_data (bearer "alice-token" (JArr [planning; review]))
               (world_of alices_table) in
  ∃ rows w1,
    supabaseData (Some alice) [planning; review] (world_of alices_table) = (Returned rows, w1) ∧
    (storable rows → run.1 = Returned (json 200 (Saved 2))) ∧
    (¬ storable rows →
       run.1 = Returned (json 500 (ErrorBody "Failed to save data")) ∧
       bookings run.2 = bookings (world_of alices_table)).
Proof.
  apply (valid_batch_is_saved_or_500 true (world_of alices_table)
           (bearer "alice-token" (JArr [planning; review])) alice [planning; review]).
  - apply healthy_world_of.
  - apply alice_authenticated.
  - reflexivity.
  - vm_compute. reflexivity.
Defined.

Lemma rows_of_elem (user : User.t) (clock : nat → Z) (n : nat) (events : list JsValue)
    (event : JsValue) :
  event ∈ events → ∃ t, row_of user t event ∈ rows_of user clock n events.
Proof.
  revert n. induction events as [|e events IH]; intros n Hin.
  - by apply elem_of_nil in Hin.
  - apply elem_of_cons in Hin as [->|Hin]; simpl.
    + exists (clock n). apply elem_of_cons. by left.
    + destruct (IH (if needs_id e then S n else n) Hin) as [t Ht].
      exists t. apply elem_of_cons. by right.
Qed.

(** [POST] does not ask who owns a row: in an accepted batch, an element
    that brings its own identifier is stored under it with the caller as
    owner, whatever row, of whatever owner, was there before. *)
Theorem post_takes_the_row (updated : bool) (w : World) (req : Request) (user : User.t)
    (events : list JsValue) (n : nat) (event : JsValue) (k : string) :
  healthy w → authenticated w req user → body req = JArr events →
  ((if updated then Updated.app else Early.app) POST_api_data req w).1
  = Returned (json 200 (Saved n)) →
  event ∈ events → has_id event → Supabase.key_of (field event "id") = Some k →
  ∃ row,
    bookings ((if updated then Updated.app else Early.app) POST_api_data req w).2 !! k
    = Some row ∧
    Row.id row = field event "id" ∧ Row.title row = field event "title" ∧
    Row.date row = field event "date" ∧ Row.user_id row = User.id user.
Proof.
  intros Hw Hauth Hbody. rewrite (post_resolved updated w req user Hauth).
  intros Hok Hevent Hid Hkey.
  destruct (save_or_500_accepted w req user events n Hw Hbody Hok)
    as (_ & keyed & Hkeyed & Hnd & ->).
  destruct (rows_of_elem user (now w) (reads w) events event Hevent) as [t Hrow].
  destruct (accepted_rows_stored events keyed _ w _ Hkeyed Hnd Hrow) as (k' & Hk' & Hstored).
  assert (Hrid : Row.id (row_of user t event) = field event "id").
  { unfold row_of. simpl. unfold has_id in Hid. by rewrite Hid. }
  rewrite Hrid, Hkey in Hk'. injection Hk' as <-.
  exists (row_of user t event). split; [done|]. split; [done|]. done.
Qed.

Lemma post_takes_the_row_witness :
  ∃ row,
    bookings (Updated.app POST_api_data (bearer "bob-token" (JArr [takeover]))
                (world_of alices_table)).2 !! "7" = Some row ∧
    Row.id row = field takeover "id" ∧ Row.title row = field takeover "title" ∧
    Row.date row = field takeover "date" ∧ Row.user_id row = User.id bob.
Proof.
  apply (post_takes_the_row true (world_of alices_table) (bearer "bob-token" (JArr [takeover]))
           bob [takeover] 1 takeover "7").
  - apply healthy_world_of.
  - apply bob_authenticated.
  - reflexivity.
  - vm_compute. reflexivity.
  - apply elem_of_cons. by left.
  - reflexivity.
  - reflexivity.
Defined.

(** An accepted batch leaves alone every row whose key is not the key of a
    row of the batch. *)
Theorem post_leaves_other_rows (updated : bool) (w : World) (req : Request) (user : User.t)
    (events : list JsValue) (n : nat) (rows : list Row.t) (w1 : World) (k : string) :
  healthy w → authenticated w req user → body req = JArr events →
  ((if updated then Updated.app else Early.app) POST_api_data req w).1
  = Returned (json 200 (Saved n)) →
  supabaseData (Some user) events w = (Returned rows, w1) →
  (∀ r, r ∈ rows → Supabase.key_of (Row.id r) ≠ Some k) →
  bookings ((if updated then Updated.app else Early.app) POST_api_data req w).2 !! k
  = bookings w !! k.
Proof.
  intros Hw Hauth Hbody. rewrite (post_resolved updated w req user Hauth).
  intros Hok Hrows Hother.
  destruct (save_or_500_accepted w req user events n Hw Hbody Hok)
    as (Hvalid & keyed & Hkeyed & Hnd & ->).
  rewrite (supabaseData_run user events w (valid_events_readable events Hvalid)) in Hrows.
  injection Hrows as <- _. simpl. apply upsert_rows_other.
  intros Hin. apply list_elem_of_fmap in Hin as ([k' r] & -> & Hkr).
  unfold Supabase.keyed_rows in Hkeyed. apply mapM_Some in Hkeyed.
  apply list_elem_of_lookup in Hkr as [i Hi].
  destruct (Forall2_lookup_r _ _ _ _ _ Hkeyed Hi) as (r0 & Hr0 & Hkey).
  destruct (Supabase.key_of (Row.id r0)) as [k0|] eqn:Hk0; simplify_eq/=.
  apply (Hother r); [|done]. apply list_elem_of_lookup. by exists i.
Qed.

Lemma post_leaves_other_rows_witness :
  bookings (Updated.app POST_api_data (bearer "bob-token" (JArr [offsite]))
              (world_of shared_table)).2 !! "7"
  = bookings (world_of shared_table) !! "7".
Proof.
  eapply (post_leaves_other_rows true (world_of shared_table)
            (bearer "bob-token" (JArr [offsite])) bob [offsite] 1).
  - apply healthy_world_of.
  - apply bob_authenticated.
  - reflexivity.
  - vm_compute. reflexivity.
  - reflexivity.
  - intros r Hr. apply list_elem_of_singleton in Hr as ->. discriminate.
Defined.

Lemma rows_of_own_ids (user : User.t) (clock clock' : nat → Z) (n n' : nat)
    (events : list JsValue) :
  Forall has_id events → rows_of user clock n events = rows_of user clock' n' events.
Proof.
  intros Hall. revert n n'. induction Hall as [|e events He Hall IH]; intros n n'; simpl; [done|].
  unfold has_id in He. unfold needs_id, falsy, row_of. rewrite He. simpl. f_equal. apply IH.
Qed.

Lemma upsert_rows_again (tbl : gmap string Row.t) (keyed : list (string * Row.t)) :
  NoDup keyed.*1 →
  Supabase.upsert_rows (Supabase.upsert_rows tbl keyed) keyed = Supabase.upsert_rows tbl keyed.
Proof.
  intros Hnd. apply map_eq. intros k.
  destruct (decide (k ∈ keyed.*1)) as [Hin|Hout].
  - apply list_elem_of_fmap in Hin as ([k' r] & -> & Hkr). simpl.
    by rewrite !(upsert_rows_lookup _ keyed k' r Hnd Hkr).
  - by rewrite (upsert_rows_other _ keyed k Hout).
Qed.

(** Posting again a batch whose elements all bring their identifiers: the
    second [POST] is answered like the first and leaves the table as the
    first left it. *)
Theorem post_again_changes_nothing (updated : bool) (w : World) (req : Request)
    (user : User.t) (events : list JsValue) (n : nat) :
  healthy w → authenticated w req user → body req = JArr events → Forall has_id events →
  let app := if updated then Updated.app else Early.app in
  (app POST_api_data req w).1 = Returned (json 200 (Saved n)) →
  (app POST_api_data req (app POST_api_data req w).2).1 = Returned (json 200 (Saved n)) ∧
  bookings (app POST_api_data req (app POST_api_data req w).2).2
  = bookings (app POST_api_data req w).2.
Proof.
  intros Hw Hauth Hbody Hids. cbv zeta. rewrite (post_resolved updated w req user Hauth).
  intros Hok.
  destruct (save_or_500_accepted w req user events n Hw Hbody Hok)
    as (Hvalid & keyed & Hkeyed & Hnd & Hw1).
  assert (Hn : n = length events).
  { pose proof (save_or_500_valid w req user events Hw Hbody Hvalid) as Hfirst.
    simpl in Hfirst. rewrite Hkeyed in Hfirst. rewrite decide_True in Hfirst by done.
    rewrite Hfirst in Hok. by injection Hok as <-. }
  rewrite Hw1.
  set (w1 := after_upsert events keyed w).
  assert (Hh1 : healthy w1) by by apply healthy_after_upsert.
  assert (Hauth1 : authenticated w1 req user).
  { destruct Hauth as (h & ? & ? & ?). by exists h. }
  rewrite (post_resolved updated w1 req user Hauth1).
  pose proof (save_or_500_valid w1 req user events Hh1 Hbody Hvalid) as Hsave.
  simpl in Hsave.
  rewrite (rows_of_own_ids user _ (now w) _ (reads w) events Hids) in Hsave.
  rewrite Hkeyed in Hsave. rewrite decide_True in Hsave by done.
  rewrite Hsave. subst n. split; [done|].
  simpl. by apply upsert_rows_again.
Qed.

Lemma post_again_changes_nothing_witness :
  let req := bearer "bob-token" (JArr [takeover; offsite]) in
  let once := Updated.app POST_api_data req (world_of alices_table) in
  (Updated.app POST_api_data req once.2).1 = Returned (json 200 (Saved 2)) ∧
  bookings (Updated.app POST_api_data req once.2).2 = bookings once.2.
Proof.
  apply (post_again_changes_nothing true (world_of alices_table)
           (bearer "bob-token" (JArr [takeover; offsite])) bob [takeover; offsite] 2).
  - apply healthy_world_of.
  - apply bob_authenticated.
  - reflexivity.
  - repeat constructor.
  - vm_compute. reflexivity.
Defined.

(** Posting one valid element under a key the table does not hold, then
    deleting that key as the same caller, gives the table back. *)
Theorem post_then_delete_restores (w : World) (post del : Request) (user : User.t)
    (event : JsValue) (k : string) :
  healthy w → authenticated w post user → authenticated w del user →
  body post = JArr [event] → valid_event event = Returned true →
  Supabase.key_of (Row.id (row_of user (now w (reads w)) event)) = Some k →
  bookings w !! k = None →
  let posted := Updated.app POST_api_data post w in
  let deleted := Updated.app (DELETE_api_data k) del posted.2 in
  posted.1 = Returned (json 200 (Saved 1)) ∧
  bookings posted.2 !! k = Some (row_of user (now w (reads w)) event) ∧
  deleted.1 = Returned (json 200 Success) ∧
  bookings deleted.2 = bookings w.
Proof.
  intros Hw Hpost Hdel Hbody Hvalid Hkey Hfree. cbv zeta.
  rewrite (updated_post_resolved w post user Hpost).
  assert (Hvalid' : isValid [event] = Returned true).
  { unfold isValid. simpl. by rewrite Hvalid. }
  pose proof (save_or_500_valid w post user [event] Hw Hbody Hvalid') as Hsave.
  cbv zeta in Hsave.
  change (rows_of user (now w) (reads w) [event])
    with [row_of user (now w (reads w)) event] in Hsave.
  remember (row_of user (now w (reads w)) event) as row eqn:Hrow.
  assert (Hkeyed : Supabase.keyed_rows [row] = Some [(k, row)]).
  { unfold Supabase.keyed_rows. cbn [mapM]. rewrite Hkey. reflexivity. }
  rewrite Hkeyed in Hsave. rewrite decide_True in Hsave by (apply NoDup_singleton).
  rewrite Hsave. cbn [fst snd].
  set (w1 := after_upsert [event] [(k, row)] w).
  assert (Hstored : bookings w1 !! k = Some row) by apply lookup_insert_eq.
  split; [done|]. split; [done|].
  assert (Hh1 : healthy w1) by by apply healthy_after_upsert.
  assert (Hdel1 : authenticated w1 del user).
  { destruct Hdel as (h & ? & ? & ?). by exists h. }
  assert (Howner : Row.user_id row = User.id user) by by subst row.
  change (Updated.app (DELETE_api_data k) del w1) with (Updated.delete_data k del w1).
  destruct (updated_delete_owner_run w1 del user k row Hh1 Hdel1 Hstored Howner)
    as (w2 & -> & _ & Hb2 & _).
  split; [done|]. cbn [fst snd]. rewrite Hb2. unfold w1, after_upsert. cbn.
  rewrite delete_insert_eq. by apply delete_id.
Qed.

Lemma post_then_delete_restores_witness :
  let w := world_of shared_table in
  let posted := Updated.app POST_api_data (bearer "bob-token" (JArr [offsite])) w in
  let deleted := Updated.app (DELETE_api_data "11") (bearer "bob-token" JUndefined) posted.2 in
  posted.1 = Returned (json 200 (Saved 1)) ∧
  bookings posted.2 !! "11" = Some (row_of bob (now w (reads w)) offsite) ∧
  deleted.1 = Returned (json 200 Success) ∧
  bookings deleted.2 = bookings w.
Proof.
  apply (post_then_delete_restores (world_of shared_table) (bearer "bob-token" (JArr [offsite]))
           (bearer "bob-token" JUndefined) bob offsite "11").
  - apply healthy_world_of.
  - apply bob_authenticated.
  - apply bob_authenticated.
  - reflexivity.
  - vm_compute. reflexivity.
  - reflexivity.
  - reflexivity.
Defined.

(** ** The two variants side by side *)

(** Outside [DELETE] the two variants answer a resolved caller alike and
    leave the same world. *)
Theorem variants_agree_outside_delete (route : Route) (w : World) (req : Request)
    (user : User.t) :
  authenticated w req user → (∀ id, route ≠ DELETE_api_data id) →
  Early.app route req w = Updated.app route req w.
Proof.
  intros Hauth Hroute. destruct route as [| | |id]; [done..| |by destruct (Hroute id)].
  by rewrite (updated_post_resolved w req user Hauth), (early_post_resolved w req user Hauth).
Qed.

Lemma variants_agree_outside_delete_witness :
  Early.app POST_api_data (bearer "alice-token" (JArr [forged])) (world_of alices_table)
  = Updated.app POST_api_data (bearer "alice-token" (JArr [forged])) (world_of alices_table).
Proof.
  apply (variants_agree_outside_delete POST_api_data (world_of alices_table)
           (bearer "alice-token" (JArr [forged])) alice).
  - apply alice_authenticated.
  - discriminate.
Defined.

(** ** The endpoints under [/api/auth] *)

(** [authenticate_as] at the answers of the data routes is the middleware
    those routes run. *)
Lemma authenticate_as_data (req : Request) (next : User.t → M Response) :
  Updated.authenticate req next = authenticate_as (λ code msg, json code (ErrorBody msg)) req next.
Proof. reflexivity. Qed.

(** [signup] answers success only when the provider took the credentials;
    every failure (a body that cannot be destructured, an error of the
    provider, a provider that throws) is answered 400 with the message of
    that failure, never with a 5xx.  The endpoint adds nothing of its own to
    what the provider's call does to the world: the world after it is the
    world that call left, and the world before when the provider was never
    reached. *)
Theorem signup_is_200_or_400 (p : Auth.Provider) (req : Request) (w : World) :
  (Auth.signup p req w).2 = Auth.after (Auth.signUp p) (body req) w ∧
  ((∃ r, Auth.accepted (Auth.signUp p) (body req) w r ∧
         (Auth.signup p req w).1
         = Returned (Auth.json 200 (Auth.SignedUp "Please check your email for verification link"))) ∨
   ((∀ r, ¬ Auth.accepted (Auth.signUp p) (body req) w r) ∧
    ∃ msg, (Auth.signup p req w).1 = Returned (Auth.json 400 (Auth.Failure msg)))).
Proof.
  unfold Auth.signup, Auth.accepted, Auth.after, try_catch, bind, lift.
  destruct (Auth.credentials (body req)) as [[email password]|e] eqn:Hc; simpl.
  - destruct (Auth.signUp p email password w) as [[[d [e|]]|e] w'] eqn:Hr; simpl.
    + split; [done|]. right. split; [|by eexists].
      intros r (em & pw & [= <- <-] & Hcall & Herr). rewrite Hr in Hcall. by simplify_eq/=.
    + split; [done|]. left. eexists. split; [|done]. exists email, password.
      by rewrite Hr.
    + split; [done|]. right. split; [|by eexists].
      intros r (em & pw & [= <- <-] & Hcall & _). by rewrite Hr in Hcall.
  - split; [done|]. right. split; [|by eexists]. by intros r (em & pw & ? & _).
Qed.

(** [login] answers success only when the provider took the credentials,
    and then hands on the provider's user and session as they are; every
    failure is answered 401 with its message.  The world after it is the
    world the provider's call left, and the world before when the provider
    was never reached. *)
Theorem login_is_200_or_401 (p : Auth.Provider) (req : Request) (w : World) :
  (Auth.login p req w).2 = Auth.after (Auth.signInWithPassword p) (body req) w ∧
  ((∃ r d, Auth.accepted (Auth.signInWithPassword p) (body req) w r ∧ data r = Some d ∧
           (Auth.login p req w).1
           = Returned (Auth.json 200 (Auth.LoggedIn (Auth.user d) (Auth.session d)))) ∨
   ((∀ r, Auth.accepted (Auth.signInWithPassword p) (body req) w r → data r = None) ∧
    ∃ msg, (Auth.login p req w).1 = Returned (Auth.json 401 (Auth.Failure msg)))).
Proof.
  unfold Auth.login, Auth.accepted, Auth.after, try_catch, bind, lift.
  destruct (Auth.credentials (body req)) as [[email password]|e] eqn:Hc; simpl.
  - destruct (Auth.signInWithPassword p email password w) as [[[[d|] [e|]]|e] w'] eqn:Hr; simpl.
    + split; [done|]. right. split; [|by eexists].
      intros r (em & pw & [= <- <-] & Hcall & Herr). rewrite Hr in Hcall. by simplify_eq/=.
    + split; [done|]. left. exists (Build_Reply _ (Some d) None), d.
      split; [|done]. exists email, password. by rewrite Hr.
    + split; [done|]. right. split; [|by eexists].
      intros r (em & pw & [= <- <-] & Hcall & Herr). rewrite Hr in Hcall. by simplify_eq/=.
    + split; [done|]. right. split; [|by eexists].
      intros r (em & pw & [= <- <-] & Hcall & Herr). rewrite Hr in Hcall. by simplify_eq/=.
    + split; [done|]. right. split; [|by eexists].
      intros r (em & pw & [= <- <-] & Hcall & _). by rewrite Hr in Hcall.
  - split; [done|]. right. split; [|by eexists]. by intros r (em & pw & ? & _).
Qed.

(** The two endpoints behind the middleware answer a caller without a
    resolved token with 401, whatever the provider would say to [signOut],
    and leave the world as it is. *)
Theorem auth_endpoints_reject_unresolved (p : Auth.Provider) (req : Request) (w : World) :
  unresolved w req →
  ∃ msg,
    Auth.logout p req w = (Returned (Auth.json 401 (Auth.Failure msg)), w) ∧
    Auth.current_user req w = (Returned (Auth.json 401 (Auth.Failure msg)), w).
Proof.
  unfold unresolved, Auth.logout, Auth.current_user, authenticate_as. intros H.
  destruct (authorization req) as [[|c h]|]; [by eexists..| |by eexists].
  destruct H as (r & Hr & Hbad).
  unfold bind, try_catch, Supabase.auth_getUser. rewrite Hr.
  destruct r as [[u|] [e|]]; simpl in *; try by eexists.
  by destruct Hbad.
Qed.

Lemma auth_endpoints_reject_unresolved_witness :
  ∃ msg,
    Auth.logout Auth.alice_only (anonymous JUndefined) (world_of alices_table)
    = (Returned (Auth.json 401 (Auth.Failure msg)), world_of alices_table) ∧
    Auth.current_user (anonymous JUndefined) (world_of alices_table)
    = (Returned (Auth.json 401 (Auth.Failure msg)), world_of alices_table).
Proof.
  apply (auth_endpoints_reject_unresolved Auth.alice_only (anonymous JUndefined)
           (world_of alices_table)).
  exact I.
Defined.

(** For a resolved caller [GET /api/auth/user] answers with the user the
    token resolved to and leaves the world as it is; [logout] answers
    success exactly when [signOut] returns without an error, 500 [Failed to
    logout] otherwise, and the world after it is the world [signOut] left. *)
Theorem auth_endpoints_for_resolved (p : Auth.Provider) (req : Request) (w : World)
    (user : User.t) :
  authenticated w req user →
  Auth.current_user req w = (Returned (Auth.json 200 (Auth.CurrentUser user)), w) ∧
  (Auth.logout p req w).2 = (Auth.signOut p w).2 ∧
  (((∃ r, (Auth.signOut p w).1 = Returned r ∧ error r = None) ∧
    (Auth.logout p req w).1 = Returned (Auth.json 200 Auth.LoggedOut)) ∨
   ((¬ ∃ r, (Auth.signOut p w).1 = Returned r ∧ error r = None) ∧
    (Auth.logout p req w).1 = Returned (Auth.json 500 (Auth.Failure "Failed to logout")))).
Proof.
  intros (h & Hh & Hne & Hu).
  unfold Auth.current_user, Auth.logout, authenticate_as.
  rewrite Hh. destruct h as [|c h]; [done|].
  unfold bind, try_catch, Supabase.auth_getUser, lift. rewrite Hu. simpl.
  split; [done|].
  destruct (Auth.signOut p w) as [[[d [e|]]|e] w']; simpl; (split; [done|]).
  - right. split; [|done]. intros (r & [= <-] & ?). done.
  - left. split; [by eexists|done].
  - right. split; [|done]. by intros (r & ? & ?).
Qed.

Lemma auth_endpoints_for_resolved_witness :
  let req := bearer "alice-token" JUndefined in
  let w := world_of alices_table in
  Auth.current_user req w = (Returned (Auth.json 200 (Auth.CurrentUser alice)), w) ∧
  (Auth.logout Auth.alice_only req w).2 = (Auth.signOut Auth.alice_only w).2 ∧
  (((∃ r, (Auth.signOut Auth.alice_only w).1 = Returned r ∧ error r = None) ∧
    (Auth.logout Auth.alice_only req w).1 = Returned (Auth.json 200 Auth.LoggedOut)) ∨
   ((¬ ∃ r, (Auth.signOut Auth.alice_only w).1 = Returned r ∧ error r = None) ∧
    (Auth.logout Auth.alice_only req w).1
    = Returned (Auth.json 500 (Auth.Failure "Failed to logout")))).
Proof.
  apply (auth_endpoints_for_resolved Auth.alice_only (bearer "alice-token" JUndefined)
           (world_of alices_table) alice).
  apply alice_authenticated.
Defined.

(** Logging in as Alice acts on the provider the data routes ask: the
    session [login] hands out resolves to no user before the call, to Alice
    after it, and to no user again once [logout] has signed it out. *)
Example login_then_current_user :
  let w := world_of alices_table in
  let creds := JObj [("email", JStr "alice@example.org"); ("password", JStr "correct horse")] in
  let session := bearer "alice-session" JUndefined in
  let w1 := (Auth.login Auth.alice_only (anonymous creds) w).2 in
  let w2 := (Auth.logout Auth.alice_only session w1).2 in
  (Auth.current_user session w).1
  = Returned (Auth.json 401 (Auth.Failure "Unauthorized - Invalid token")) ∧
  (Auth.login Auth.alice_only (anonymous creds) w).1
  = Returned (Auth.json 200 (Auth.LoggedIn (Some alice)
                               (Some {| Auth.access_token := "alice-session" |}))) ∧
  (Auth.current_user session w1).1 = Returned (Auth.json 200 (Auth.CurrentUser alice)) ∧
  (Auth.logout Auth.alice_only session w1).1 = Returned (Auth.json 200 Auth.LoggedOut) ∧
  (Auth.current_user session w2).1
  = Returned (Auth.json 401 (Auth.Failure "Unauthorized - Invalid token")) ∧
  (Auth.login Auth.alice_only (anonymous (JObj [])) w).1
  = Returned (Auth.json 401 (Auth.Failure "Invalid login credentials")) ∧
  (Auth.signup Auth.alice_only (anonymous JUndefined) w).1
  = Returned (Auth.json 400 (Auth.Failure
       "Cannot destructure property 'email' of 'req.body' as it is undefined.")).
Proof. by vm_compute. Qed.

(** ** The early [DELETE] *)

(** The early [DELETE] asks nothing: unless the store answers with an error,
    it answers success to any caller and for any identifier, whether a row
    carries it or not, and the row, if any, is gone. *)
Theorem early_delete_asks_nothing (id : string) (req : Request) (w : World) :
  let run := Early.app (DELETE_api_data id) req w in
  (next_fails w ∧ run.1 = Returned (json 500 (ErrorBody "Failed to delete event")) ∧
   bookings run.2 = bookings w) ∨
  (¬ next_fails w ∧ run.1 = Returned (json 200 Success) ∧
   bookings run.2 = delete id (bookings w) ∧ bookings run.2 !! id = None).
Proof.
  cbv zeta. unfold next_fails. unfold_handlers.
  destruct (faults w) as [|[e|] fs]; simpl.
  - right. split; [by intros (e & fs & ?)|]. split; [done|]. split; [done|].
    apply lookup_delete_eq.
  - left. split; [by exists e, fs|done].
  - right. split; [by intros (e & fs' & ?)|]. split; [done|]. split; [done|].
    apply lookup_delete_eq.
Qed.
